(** * Collaborative Task Manager: the client-side task synchronisation layer

    A shallow embedding of the parts of the front end that keep the local
    task list in step with the remote store and the Socket.io channel:

    - [src/hooks/useTasks.js]      the task view model (load and patches),
    - [src/lib/apiClient.js]       [taskAPI], and the socket module that the
                                   hooks import as [lib/socket],
    - [src/components/TaskItem.js] status, priority and delete handlers and
                                   the overdue badge,
    - [src/components/TaskForm.js] the create/edit submit handler.

    JavaScript objects are finite maps from property names to values, the
    task list is a [list], module-level and React state is threaded
    explicitly, and [async] functions with [try]/[catch]/[finally] run in a
    small state-and-exception monad.  *)

From stdpp Require Import gmap strings list fin_maps pretty.
From Stdlib Require Import ZArith.

Local Open Scope Z_scope.

(** ** JavaScript values *)

Module Js.

(** The values a task received as JSON can hold in a property.  Numbers are
    the integer-valued ones (no NaN, no fractions); a nested object or array
    is an opaque reference, compared by identity as [===] does. *)
Inductive value : Type :=
  | VUndefined
  | VNull
  | VBool (b : bool)
  | VNum (n : Z)
  | VStr (s : string)
  | VRef (l : positive).

#[global] Instance value_eq_dec : EqDecision value.
Proof. solve_decision. Defined.

(** [ToBoolean]. *)
Definition truthy (v : value) : bool :=
  match v with
  | VUndefined | VNull => false
  | VBool b => b
  | VNum n => negb (n =? 0)
  | VStr s => negb (String.eqb s "")
  | VRef _ => true
  end.

(** [a === b] and [a !== b] on these values. *)
Definition strict_eq (a b : value) : bool := bool_decide (a = b).
Definition strict_ne (a b : value) : bool := negb (strict_eq a b).

(** [a || b] and [a && b]: the operand that decides, not a boolean. *)
Definition or_else (a b : value) : value := if truthy a then a else b.
Definition and_then (a b : value) : value := if truthy a then b else a.

(** A plain object.  Reading a property that is absent gives [undefined]. *)
Abbreviation object := (gmap string value).

Definition get (o : object) (k : string) : value := default VUndefined (o !! k).

(** [{ ...a, ...b }]: the properties of [a] overridden by those of [b]. *)
Definition spread2 (a b : object) : object := b ∪ a.

End Js.

Import Js.

(** ** The task view model ([useTasks]) *)

Abbreviation task := (gmap string value).

Module TaskViewModel.

(** The state updater passed to [setTasks] by the [task-updated] listener:
    [prevTasks.map(task => task.id === updatedTask.id
                           ? { ...task, ...updatedTask } : task)]. *)
Definition applyUpdate (updatedTask : task) (prevTasks : list task) : list task :=
  map (fun task =>
         if strict_eq (get task "id") (get updatedTask "id")
         then spread2 task updatedTask
         else task)
      prevTasks.

(** The updater of the [task-created] listener: [[newTask, ...prevTasks]]. *)
Definition applyCreate (newTask : task) (prevTasks : list task) : list task :=
  newTask :: prevTasks.

(** The updater of the [task-deleted] listener:
    [prevTasks.filter(task => task.id !== deletedTaskId)]. *)
Definition applyDelete (deletedTaskId : value) (prevTasks : list task) : list task :=
  List.filter (fun task => strict_ne (get task "id") deletedTaskId) prevTasks.

(** Number of entries of a collection whose [id] is [i]. *)
Definition count_id (i : value) (ts : list task) : nat :=
  length (List.filter (fun task => strict_eq (get task "id") i) ts).

(** No entry of the collection has identifier [i]. *)
Definition id_absent (i : value) (ts : list task) : Prop :=
  Forall (fun task => get task "id" ≠ i) ts.

End TaskViewModel.

Import TaskViewModel.

(** ** Asynchronous functions: state and exceptions *)

Module Async.

(** An [async] function body over a state [S]: it ends normally with a value
    ([inr]) or by a throw / rejected [await] ([inl]), and leaves a state. *)
Definition M (S E A : Type) : Type := S → (E + A) * S.

Section ops.
Context {S E : Type}.

#[global] Instance M_ret : MRet (M S E) := λ A a s, (inr a, s).

#[global] Instance M_bind : MBind (M S E) := λ A B f m s,
  match m s with
  | (inl e, s') => (inl e, s')
  | (inr a, s') => f a s'
  end.

(** A state update such as [setIsLoading(true)]. *)
Definition modify (f : S → S) : M S E unit := λ s, (inr (), f s).

(** [await p], the promise [p] being already settled. *)
Definition await {A} (p : E + A) : M S E A := λ s, (p, s).

(** [try { body } catch (err) { handler err } finally { fin }]. *)
Definition try_catch_finally {A}
    (body : M S E A) (handler : E → M S E A) (fin : M S E unit) : M S E A :=
  λ s,
    let '(r, s1) := match body s with
                    | (inl e, s') => handler e s'
                    | (inr a, s') => (inr a, s')
                    end in
    match fin s1 with
    | (inl e, s2) => (inl e, s2)
    | (inr _, s2) => (r, s2)
    end.

End ops.

(** The promise returned by an [async] function fulfils when the body ends
    normally and rejects when a throw escapes it. *)
Definition fulfils {S E A} (m : M S E A) (s : S) : bool :=
  match (m s).1 with inr _ => true | inl _ => false end.

Definition final {S E A} (m : M S E A) (s : S) : S := (m s).2.

End Async.

Import Async.

(** ** The remote store accessor ([taskAPI]) *)

Module Remote.

(** The body the server sends: [{ data: ..., message: ... }]. *)
Record envelope (A : Type) := Envelope { env_data : option A; env_message : value }.
Arguments Envelope {A}.
Arguments env_data {A}.
Arguments env_message {A}.

(** An axios response: [status] and the parsed body [data], if any. *)
Record response (A : Type) := Response { res_status : Z; res_data : option (envelope A) }.
Arguments Response {A}.
Arguments res_status {A}.
Arguments res_data {A}.

(** [response.data?.data]. *)
Definition data_data {A} (r : response A) : option A := res_data r ≫= env_data.

(** A rejection of an axios call: [err.response] is present for a non-2xx
    answer and absent for a network failure or a timeout. *)
Record rejection := Rejection { err_response : option (response unit) }.

(** [err.response?.data?.message] and [err.response?.status]. *)
Definition err_message (err : rejection) : value :=
  match err_response err ≫= res_data with
  | Some body => env_message body
  | None => VUndefined
  end.

Definition err_status (err : rejection) : value :=
  match err_response err with
  | Some r => VNum (res_status r)
  | None => VUndefined
  end.

Abbreviation promise A := (rejection + response A)%type.

(** The endpoints of [taskAPI] the hook and the components call, each giving
    the settled promise of the call. *)
Record taskAPI := TaskAPI {
  getAllTasks : value → value → value → promise (list task);
  getAssignedTasks : promise (list task);
  getCreatedTasks : promise (list task);
  getOverdueTasks : promise (list task);
  createTask : task → promise task;
  updateTask : value → task → promise task;
  deleteTask : value → promise unit
}.

End Remote.

Import Remote.

(** ** Loading the collection ([getTasksData] of [useTasks]) *)

Module UseTasks.

(** The hook's React state and the navigations it asked the router for. *)
Record hook := Hook {
  tasks : list task;
  isLoading : bool;
  error : value;
  pushed : list string
}.

Definition setTasks (ts : list task) (h : hook) : hook :=
  Hook ts (isLoading h) (error h) (pushed h).
Definition setIsLoading (b : bool) (h : hook) : hook :=
  Hook (tasks h) b (error h) (pushed h).
Definition setError (e : value) (h : hook) : hook :=
  Hook (tasks h) (isLoading h) e (pushed h).
Definition router_push (url : string) (h : hook) : hook :=
  Hook (tasks h) (isLoading h) (error h) (pushed h ++ [url]).

(** The options of the hook, [sortBy] already defaulted by the caller. *)
Record options := Options {
  filter : string;
  status : value;
  priority : value;
  sortBy : value
}.

(** The [switch (filter)]: which endpoint the load calls. *)
Definition selected (api : taskAPI) (o : options) : promise (list task) :=
  if String.eqb (filter o) "assigned" then getAssignedTasks api
  else if String.eqb (filter o) "created" then getCreatedTasks api
  else if String.eqb (filter o) "overdue" then getOverdueTasks api
  else getAllTasks api (status o) (priority o) (sortBy o).

Definition getTasksData (api : taskAPI) (o : options) : M hook rejection unit :=
  try_catch_finally
    (modify (setIsLoading true);;
     modify (setError VNull);;
     response ← await (selected api o);
     modify (setTasks (default [] (data_data response))))
    (λ err,
       modify (setError (or_else (err_message err) (VStr "Failed to fetch tasks")));;
       if strict_eq (err_status err) (VNum 401)
       then modify (router_push "/login")
       else mret ())
    (modify (setIsLoading false)).

End UseTasks.

(** ** The change notification channel ([lib/socket]) *)

Module Socket.

(** What [socket.emit(name, payload)] sends.  A task payload is
    [response.data?.data], which may be [undefined]. *)
Inductive event : Type :=
  | UserJoin (userId : value)
  | TaskUpdated (taskData : option task)
  | TaskCreated (taskData : option task)
  | TaskDeleted (taskId : value)
  | TaskAssigned (assignedToId taskTitle taskId : value).

#[global] Instance event_eq_dec : EqDecision event.
Proof. solve_decision. Defined.

(** A client instance made by [io(API_URL, {...})]: whether the transport is
    up ([socket.connected]), whether the client has not yet called
    [disconnect()] on it, the [userId] captured by the ['connect'] listener
    that [initSocket] installed on it, the listeners added with
    [socket.on(name, callback)] (a callback is known by its identity), and
    the events it was asked to emit, oldest first. *)
Record instance := Instance {
  connected : bool;
  active : bool;
  announce : value;
  listeners : list (string * nat);
  sent : list event
}.

(** The module: every instance made so far, and the module-level
    [let socket], [None] for [null]. *)
Record state := State { instances : list instance; socket : option nat }.

Definition initial : state := State [] None.

Definition current (st : state) : option instance :=
  socket st ≫= λ i, instances st !! i.

Definition push_sent (e : event) (s : instance) : instance :=
  Instance (connected s) (active s) (announce s) (listeners s) (sent s ++ [e]).
Definition push_listener (name : string) (callback : nat) (s : instance) : instance :=
  Instance (connected s) (active s) (announce s)
           (listeners s ++ [(name, callback)]) (sent s).
Definition set_connected (b : bool) (s : instance) : instance :=
  Instance b (active s) (announce s) (listeners s) (sent s).
(** [socket.disconnect()]: the transport is closed for good. *)
Definition disconnect (s : instance) : instance :=
  Instance false false (announce s) (listeners s) (sent s).

(** [if (socket) { socket.emit(...) }]. *)
Definition emit (e : event) (st : state) : state :=
  match socket st with
  | Some i => State (alter (push_sent e) i (instances st)) (socket st)
  | None => st
  end.

(** [if (socket) { socket.on(name, callback) }]. *)
Definition on (name : string) (callback : nat) (st : state) : state :=
  match socket st with
  | Some i => State (alter (push_listener name callback) i (instances st)) (socket st)
  | None => st
  end.

(** [socket?.connected]. *)
Definition socket_connected (st : state) : bool :=
  match current st with
  | Some s => connected s
  | None => false
  end.

(** [initSocket(userId)], returning the instance it returns. *)
Definition initSocket (userId : value) (st : state) : nat * state :=
  match socket st with
  | Some i =>
      if socket_connected st
      then (i, emit (UserJoin userId) st)
      else (length (instances st),
            State (instances st ++ [Instance false true userId [] []])
                  (Some (length (instances st))))
  | None =>
      (length (instances st),
       State (instances st ++ [Instance false true userId [] []])
             (Some (length (instances st))))
  end.

Definition getSocket (st : state) : option nat := socket st.

Definition closeSocket (st : state) : state :=
  match socket st with
  | Some i => State (alter disconnect i (instances st)) None
  | None => st
  end.

Definition emitTaskUpdated (taskData : option task) : state → state :=
  emit (TaskUpdated taskData).
Definition emitTaskCreated (taskData : option task) : state → state :=
  emit (TaskCreated taskData).
Definition emitTaskDeleted (taskId : value) : state → state :=
  emit (TaskDeleted taskId).
Definition emitTaskAssigned (assignedToId taskTitle taskId : value) : state → state :=
  emit (TaskAssigned assignedToId taskTitle taskId).

(** What a caller could invoke to undo a registration. *)
Definition disposer : Type := state → state.

(** The four registration functions.  Their bodies have no [return]: the
    value a caller receives is [undefined], here [None]. *)
Definition onTaskUpdated (callback : nat) (st : state) : option disposer * state :=
  (None, on "task-updated" callback st).
Definition onTaskCreated (callback : nat) (st : state) : option disposer * state :=
  (None, on "task-created" callback st).
Definition onTaskDeleted (callback : nat) (st : state) : option disposer * state :=
  (None, on "task-deleted" callback st).
Definition onAssignmentNotification (callback : nat) (st : state) : option disposer * state :=
  (None, on "assignment-notification" callback st).

(** [unsubscribe?.()]. *)
Definition call_optional (d : option disposer) (st : state) : state :=
  match d with
  | Some f => f st
  | None => st
  end.

(** The transport of instance [i] completes a handshake (first connect or a
    reconnect): [connected] becomes true and the ['connect'] listener runs
    [socket.emit('user-join', userId)] on the module-level [socket].  The
    listener does not test that variable: when it is [null] the call throws
    a TypeError inside the listener, and the state given here is the one
    the throw leaves; [connect_listener_throws] tells that case. *)
Definition transport_connect (i : nat) (st : state) : state :=
  match instances st !! i with
  | Some s =>
      if active s && negb (connected s)
      then emit (UserJoin (announce s))
                (State (alter (set_connected true) i (instances st)) (socket st))
      else st
  | None => st
  end.


(** The transport of instance [i] drops; the ['disconnect'] listener only logs. *)
Definition transport_drop (i : nat) (st : state) : state :=
  State (alter (set_connected false) i (instances st)) (socket st).

(** What can happen to the module during a session. *)
Inductive op : Type :=
  | OpInit (userId : value)
  | OpClose
  | OpEmit (e : event)
  | OpOn (name : string) (callback : nat)
  | OpConnect (i : nat)
  | OpDrop (i : nat).

Definition step (o : op) (st : state) : state :=
  match o with
  | OpInit userId => (initSocket userId st).2
  | OpClose => closeSocket st
  | OpEmit e => emit e st
  | OpOn name callback => on name callback st
  | OpConnect i => transport_connect i st
  | OpDrop i => transport_drop i st
  end.

Definition run (tr : list op) (st : state) : state := foldl (flip step) st tr.

(** Instances the client has not disconnected: each holds a transport that is
    connected, connecting or reconnecting. *)
Definition live (st : state) : nat :=
  length (List.filter active (instances st)).

(** [initSocket] is only ever called when no socket is held or the one held
    is connected. *)
Fixpoint opens_when_idle_or_connected (tr : list op) (st : state) : bool :=
  match tr with
  | [] => true
  | o :: tr' =>
      match o with
      | OpInit _ =>
          match socket st with None => true | Some _ => socket_connected st end
      | _ => true
      end && opens_when_idle_or_connected tr' (step o st)
  end.

Definition sent_by (i : nat) (st : state) : list event :=
  match instances st !! i with
  | Some s => sent s
  | None => []
  end.

(** Every instance the client has not disconnected is the one the module
    variable holds. *)
Definition exclusive (st : state) : Prop :=
  ∀ (j : nat) (s : instance),
    instances st !! j = Some s → active s = true → socket st = Some j.

(** [st'] has the module variable and the instances of [st], each instance
    still in the same life-cycle stage and with the same captured userId. *)
Definition frame (st st' : state) : Prop :=
  socket st' = socket st
  ∧ ∀ j : nat,
      match instances st !! j, instances st' !! j with
      | Some s, Some s' => active s' = active s ∧ announce s' = announce s
      | None, None => True
      | _, _ => False
      end.

(** The module holds instance [i], not disconnected by the client, whose
    ['connect'] listener announces [u]. *)
Definition holds (i : nat) (u : value) (st : state) : Prop :=
  socket st = Some i
  ∧ ∃ s, instances st !! i = Some s ∧ active s = true ∧ announce s = u.


End Socket.

(** ** What a presentation component touches *)

Module Component.

(** A write sent to the remote store. *)
Inductive request : Type :=
  | PutTask (id : value) (fields : task)
  | PostTask (fields : task)
  | DeleteTask (id : value).

(** The calls a handler makes to what it imports or receives as a prop, in
    the order it makes them: a [taskAPI] write with whether its promise
    fulfilled, one of the [emit...] functions of the socket module, or a
    callback prop. *)
Inductive call : Type :=
  | CallAPI (req : request) (fulfilled : bool)
  | CallEmit (e : Socket.event)
  | CallProp (name : string).

(** The component's own React state, the socket module, and the calls made. *)
Record world (C : Type) := World {
  ui : C;
  chan : Socket.state;
  calls : list call
}.
Arguments World {C}.
Arguments ui {C}.
Arguments chan {C}.
Arguments calls {C}.

Section ops.
Context {C : Type}.

Definition setState (f : C → C) : M (world C) rejection unit :=
  modify (λ w, World (f (ui w)) (chan w) (calls w)).

(** [await taskAPI.method(...)]. *)
Definition request_write {A} (req : request) (p : promise A)
    : M (world C) rejection (response A) :=
  modify (λ w, World (ui w) (chan w)
                     (calls w ++ [CallAPI req (match p with inl _ => false | inr _ => true end)]));;
  await p.

(** A call of one of the [emit...] exports of the socket module: it runs
    on the module's state and is logged with the event it stands for. *)
Definition call_emit (e : Socket.event) (f : Socket.state → Socket.state)
    : M (world C) rejection unit :=
  modify (λ w, World (ui w) (f (chan w)) (calls w ++ [CallEmit e])).

Definition emitTaskUpdated (taskData : option task) :=
  call_emit (Socket.TaskUpdated taskData) (Socket.emitTaskUpdated taskData).
Definition emitTaskCreated (taskData : option task) :=
  call_emit (Socket.TaskCreated taskData) (Socket.emitTaskCreated taskData).
Definition emitTaskDeleted (taskId : value) :=
  call_emit (Socket.TaskDeleted taskId) (Socket.emitTaskDeleted taskId).
Definition emitTaskAssigned (assignedToId taskTitle taskId : value) :=
  call_emit (Socket.TaskAssigned assignedToId taskTitle taskId)
            (Socket.emitTaskAssigned assignedToId taskTitle taskId).

(** [prop?.()], the prop being passed or not. *)
Definition call_prop (passed : bool) (name : string) : M (world C) rejection unit :=
  if passed
  then modify (λ w, World (ui w) (chan w) (calls w ++ [CallProp name]))
  else mret ().

End ops.

(** Kinds of calls. *)
Definition is_write_ok (c : call) : bool :=
  match c with CallAPI _ true => true | _ => false end.
Definition is_write_failed (c : call) : bool :=
  match c with CallAPI _ false => true | _ => false end.
Definition is_emit (c : call) : bool :=
  match c with CallEmit _ => true | _ => false end.

(** Every emit in a sequence of calls comes after a write that fulfilled. *)
Fixpoint emits_follow_write (written : bool) (cs : list call) : bool :=
  match cs with
  | [] => true
  | c :: cs' =>
      (if is_emit c then written else true)
      && emits_follow_write (written || is_write_ok c) cs'
  end.

(** Whether the promise of a write fulfils. *)
Definition write_fulfils (api : taskAPI) (req : request) : bool :=
  match req with
  | PutTask id fields => if updateTask api id fields is inr _ then true else false
  | PostTask fields => if createTask api fields is inr _ then true else false
  | DeleteTask id => if deleteTask api id is inr _ then true else false
  end.

(** A logged write carries the outcome the remote store gave it. *)
Definition logged_outcome_of (api : taskAPI) (c : call) : Prop :=
  match c with
  | CallAPI req fulfilled => fulfilled = write_fulfils api req
  | _ => True
  end.

(** A handler emits on the channel only behind a fulfilled write: from any
    world it ends normally having made some calls [cs] after those already
    made; each logged write has the outcome the store gave; every emit among
    [cs] follows a fulfilled write among [cs]; and when no write among [cs]
    fulfilled, [cs] has no emit and the socket module is as it was. *)
Definition write_gates_emit {C} (api : taskAPI) (m : M (world C) rejection unit) : Prop :=
  ∀ w : world C,
    fulfils m w = true
    ∧ ∃ cs : list call,
        calls (final m w) = calls w ++ cs
        ∧ Forall (logged_outcome_of api) cs
        ∧ emits_follow_write false cs = true
        ∧ (existsb is_write_ok cs = false →
           existsb is_emit cs = false ∧ chan (final m w) = chan w).

End Component.

Import Component.

(** ** [TaskItem] *)

Module TaskItem.

Record item := Item {
  isUpdating : bool;
  isDeleting : bool;
  showDeleteConfirm : bool
}.

Definition setIsUpdating (b : bool) (c : item) : item :=
  Item b (isDeleting c) (showDeleteConfirm c).
Definition setIsDeleting (b : bool) (c : item) : item :=
  Item (isUpdating c) b (showDeleteConfirm c).
Definition setShowDeleteConfirm (b : bool) (c : item) : item :=
  Item (isUpdating c) (isDeleting c) b.

(** The props: the task shown, and whether each callback was passed. *)
Record props := Props {
  task_ : task;
  onTaskUpdated : bool;
  onTaskDeleted : bool
}.

Definition handleStatusChange (api : taskAPI) (p : props) (newStatus : value)
    : M (world item) rejection unit :=
  if strict_eq newStatus (get (task_ p) "status") then mret ()
  else
    setState (setIsUpdating true);;
    try_catch_finally
      (response ← request_write (PutTask (get (task_ p) "id") {[ "status" := newStatus ]})
                    (updateTask api (get (task_ p) "id") {[ "status" := newStatus ]});
       emitTaskUpdated (data_data response);;
       call_prop (onTaskUpdated p) "onTaskUpdated")
      (λ err, mret ())
      (setState (setIsUpdating false)).

Definition handlePriorityChange (api : taskAPI) (p : props) (newPriority : value)
    : M (world item) rejection unit :=
  if strict_eq newPriority (get (task_ p) "priority") then mret ()
  else
    setState (setIsUpdating true);;
    try_catch_finally
      (response ← request_write (PutTask (get (task_ p) "id") {[ "priority" := newPriority ]})
                    (updateTask api (get (task_ p) "id") {[ "priority" := newPriority ]});
       emitTaskUpdated (data_data response);;
       call_prop (onTaskUpdated p) "onTaskUpdated")
      (λ err, mret ())
      (setState (setIsUpdating false)).

Definition handleDelete (api : taskAPI) (p : props) : M (world item) rejection unit :=
  setState (setIsDeleting true);;
  try_catch_finally
    (_ ← request_write (DeleteTask (get (task_ p) "id"))
           (deleteTask api (get (task_ p) "id"));
     emitTaskDeleted (get (task_ p) "id");;
     setState (setShowDeleteConfirm false);;
     call_prop (onTaskDeleted p) "onTaskDeleted")
    (λ err, mret ())
    (setState (setIsDeleting false)).

(** The [Date] built-ins the overdue badge relies on: [Date.parse] on a
    string and the time value a referenced object converts to, [None] being
    NaN (an invalid date). *)
Record dates := Dates {
  Date_parse : string → option Z;
  Date_of_object : positive → option Z
}.

(** The time value of [new Date(v)]. *)
Definition Date_new (D : dates) (v : value) : option Z :=
  match v with
  | VUndefined => None
  | VNull => Some 0
  | VBool b => Some (if b then 1 else 0)
  | VNum n => if Z.abs n <=? 8640000000000000 then Some n else None
  | VStr s => Date_parse D s
  | VRef l => Date_of_object D l
  end.

(** [a < b] on two dates: false as soon as one is invalid. *)
Definition date_lt (a b : option Z) : bool :=
  match a, b with
  | Some x, Some y => x <? y
  | _, _ => false
  end.

(** [task.dueDate && new Date(task.dueDate) < new Date()
     && task.status !== 'Completed'], [now] being the time value of
    [new Date()]. *)
Definition isOverdue (D : dates) (now : Z) (t : task) : value :=
  and_then
    (and_then (get t "dueDate")
              (VBool (date_lt (Date_new D (get t "dueDate")) (Some now))))
    (VBool (strict_ne (get t "status") (VStr "Completed"))).

(** The task carries a due date: the property is neither missing nor [null]. *)
Definition has_dueDate (t : task) : Prop :=
  get t "dueDate" ≠ VUndefined ∧ get t "dueDate" ≠ VNull.

(** The instant the due date denotes is strictly before [now]. *)
Definition due_before (D : dates) (now : Z) (t : task) : Prop :=
  ∃ d, Date_new D (get t "dueDate") = Some d ∧ d < now.

(** The due date of a task as the remote store serialises it: missing,
    [null], or a string. *)
Definition dueDate_serialised (t : task) : Prop :=
  get t "dueDate" = VUndefined ∨ get t "dueDate" = VNull
  ∨ ∃ s, get t "dueDate" = VStr s.

End TaskItem.

(** ** [TaskForm] *)

Module TaskForm.

Record form := Form {
  isLoading : bool;
  error : value;
  resets : nat
}.

Definition setIsLoading (b : bool) (c : form) : form := Form b (error c) (resets c).
Definition setError (e : value) (c : form) : form := Form (isLoading c) e (resets c).
Definition reset (c : form) : form := Form (isLoading c) (error c) (S (resets c)).

(** What the form gets from outside the repository: [taskSchema.parse] of
    zod ([None] when it throws), [new Date(v)] as a value, and
    [new Date(v).toISOString()] ([None] when it throws a RangeError). *)
Record externals := Externals {
  taskSchema_parse : task → option task;
  Date_object : value → value;
  Date_toISOString : value → option value
}.

(** [validate(schema, data)] of [lib/validation.js]. *)
Record validation := Validation { success : bool; data : option task }.

Definition validate (parse : task → option task) (d : task) : validation :=
  match parse d with
  | Some validatedData => Validation true (Some validatedData)
  | None => Validation false None
  end.

Record props := Props {
  initialData : option task;
  onTaskCreated : bool
}.

(** An exception that is not an axios rejection has no [response]. *)
Definition throw_plain {A} : M (world form) rejection A :=
  await (inl (Rejection None)).

Definition onSubmit (X : externals) (api : taskAPI) (p : props) (d : task)
    : M (world form) rejection unit :=
  try_catch_finally
    (setState (setIsLoading true);;
     setState (setError (VStr ""));;
     let v := validate (taskSchema_parse X)
                (spread2 d {[ "dueDate" :=
                   if truthy (get d "dueDate") then Date_object X (get d "dueDate")
                   else VUndefined ]}) in
     if negb (success v)
     then setState (setError (VStr "Validation failed"))
     else
       let validated := default ∅ (data v) in
       dueDate ← (if truthy (get d "dueDate")
                  then match Date_toISOString X (get d "dueDate") with
                       | Some iso => mret iso
                       | None => throw_plain
                       end
                  else mret VNull);
       let submitData := spread2 validated {[ "dueDate" := dueDate ]} in
       match initialData p with
       | Some initial =>
           (* Update existing task *)
           response ← request_write (PutTask (get initial "id") submitData)
                        (updateTask api (get initial "id") submitData);
           emitTaskCreated (data_data response)
       | None =>
           (* Create new task *)
           response ← request_write (PostTask submitData) (createTask api submitData);
           emitTaskCreated (data_data response);;
           if truthy (get submitData "assignedToId")
           then emitTaskAssigned
                  (get submitData "assignedToId")
                  (get submitData "title")
                  (match data_data response with
                   | Some created => get created "id"
                   | None => VUndefined
                   end)
           else mret ()
       end;;
       setState reset;;
       call_prop (onTaskCreated p) "onTaskCreated")
    (λ err, setState (setError (or_else (err_message err) (VStr "Failed to save task"))))
    (setState (setIsLoading false)).

End TaskForm.

(** ** The socket effect of [useTasks] *)

Module UseTasksEffect.

(** The effect registers three listeners and returns its cleanup, which
    calls whatever each registration returned, if anything. *)
Definition mount (cbUpdated cbCreated cbDeleted : nat) (st : Socket.state)
    : Socket.disposer * Socket.state :=
  let '(unsubscribeUpdated, st1) := Socket.onTaskUpdated cbUpdated st in
  let '(unsubscribeCreated, st2) := Socket.onTaskCreated cbCreated st1 in
  let '(unsubscribeDeleted, st3) := Socket.onTaskDeleted cbDeleted st2 in
  (λ s, Socket.call_optional unsubscribeDeleted
          (Socket.call_optional unsubscribeCreated
             (Socket.call_optional unsubscribeUpdated s)),
   st3).

End UseTasksEffect.

(** ** Property reads on object literals *)

Module Literal.

(** What every object literal inherits from [Object.prototype]. *)
Definition inherited : list string :=
  [ "constructor"; "__proto__"; "hasOwnProperty"; "isPrototypeOf";
    "propertyIsEnumerable"; "toLocaleString"; "toString"; "valueOf";
    "__defineGetter__"; "__defineSetter__"; "__lookupGetter__";
    "__lookupSetter__" ]%string.

Definition is_inherited (k : string) : bool := existsb (String.eqb k) inherited.

(** What the engine supplies: [ToString] of a value that is not a string,
    and the object found under an inherited name (a function, or the
    prototype itself). *)
Record engine := Engine {
  ToString : value → string;
  proto_member : string → positive
}.

(** The property key [o[v]] reads. *)
Definition property_key (E : engine) (v : value) : string :=
  match v with
  | VStr s => s
  | _ => ToString E v
  end.

(** [o[k]] for a literal [o] with own properties [own]. *)
Definition read (E : engine) (own : gmap string value) (k : string) : value :=
  match own !! k with
  | Some v => v
  | None => if is_inherited k then VRef (proto_member E k) else VUndefined
  end.

End Literal.

(** ** Badge colours of [TaskItem] *)

Module Colors.

Import Literal.

Definition statusColors : gmap string value :=
  {[ "To Do" := VStr "bg-gray-100 text-gray-800 border-gray-300";
     "In Progress" := VStr "bg-blue-100 text-blue-800 border-blue-300";
     "Review" := VStr "bg-yellow-100 text-yellow-800 border-yellow-300";
     "Completed" := VStr "bg-green-100 text-green-800 border-green-300" ]}.

Definition priorityColors : gmap string value :=
  {[ "Low" := VStr "bg-green-100 text-green-800 border-green-300";
     "Medium" := VStr "bg-blue-100 text-blue-800 border-blue-300";
     "High" := VStr "bg-orange-100 text-orange-800 border-orange-300";
     "Urgent" := VStr "bg-red-100 text-red-800 border-red-300" ]}.

(** [colors[status] || colors['To Do']]. *)
Definition getStatusColor (E : engine) (status : value) : value :=
  or_else (read E statusColors (property_key E status))
          (read E statusColors "To Do").

(** [colors[priority] || colors.Medium]. *)
Definition getPriorityColor (E : engine) (priority : value) : value :=
  or_else (read E priorityColors (property_key E priority))
          (read E priorityColors "Medium").

End Colors.

(** ** [TaskList] *)

Module TaskList.

Import Literal.

Definition statusOrder : list string :=
  [ "To Do"; "In Progress"; "Review"; "Completed" ]%string.

(** The [groups] literal the memo starts from. *)
Definition groups0 : gmap string (list task) :=
  {[ "To Do" := []; "In Progress" := []; "Review" := []; "Completed" := [] ]}.

(** One turn of the [forEach]: [if (groups[task.status])
    groups[task.status].push(task)].  An own group is an array, truthy even
    when empty, and gets the task; an inherited name is truthy too but has
    no [push], and the call throws a TypeError ([None]); any other name
    reads [undefined] and the task is skipped. *)
Definition place (E : engine) (groups : gmap string (list task)) (t : task)
    : option (gmap string (list task)) :=
  let k := property_key E (get t "status") in
  match groups !! k with
  | Some l => Some (<[ k := l ++ [t] ]> groups)
  | None => if is_inherited k then None else Some groups
  end.

Definition groupedTasks (E : engine) (tasks : list task)
    : option (gmap string (list task)) :=
  foldl (λ acc t, acc ≫= λ groups, place E groups t) (Some groups0) tasks.

(** What the component renders. *)
Inductive view : Type :=
  | Skeleton
  | ErrorPanel (message : value) (tryAgain : bool)
  | EmptyState
  | Sections (sections : list (string * list task)).

Record props := Props {
  tasks : list task;
  isLoading : bool;
  error : value;
  onRefresh : bool
}.

(** The sections drawn: one per status of [statusOrder] whose group is not
    empty. *)
Definition sections_of (groups : gmap string (list task)) : list (string * list task) :=
  omap (λ status,
          let statusTasks := default [] (groups !! status) in
          if (length statusTasks =? 0)%nat then None else Some (status, statusTasks))
       statusOrder.

(** The render: the memo first, then the loading, error and empty states.
    [None] when the memo throws. *)
Definition render (E : engine) (p : props) : option view :=
  groups ← groupedTasks E (tasks p);
  Some (if isLoading p then Skeleton
        else if truthy (error p) then ErrorPanel (error p) (onRefresh p)
        else if (length (tasks p) =? 0)%nat then EmptyState
        else Sections (sections_of groups)).

(** The status of the task reads as one of the four group names. *)
Definition known_status (E : engine) (t : task) : bool :=
  bool_decide (property_key E (get t "status") ∈ statusOrder).

(** No task's status reads as a name inherited from [Object.prototype]. *)
Definition plain_statuses (E : engine) (ts : list task) : Prop :=
  Forall (λ t, is_inherited (property_key E (get t "status")) = false) ts.

End TaskList.

(** ** The dashboard ([Home]) *)

Module Home.

Record home := Home {
  activeView : string;
  editingTask : option task;
  showForm : bool;
  mutated : nat
}.

Definition setEditingTask (t : option task) (h : home) : home :=
  Home (activeView h) t (showForm h) (mutated h).
Definition setShowForm (b : bool) (h : home) : home :=
  Home (activeView h) (editingTask h) b (mutated h).
(** [mutate()], the reload of [useTasks], counted. *)
Definition mutate (h : home) : home :=
  Home (activeView h) (editingTask h) (showForm h) (S (mutated h)).

Definition handleTaskCreated (h : home) : home :=
  mutate (setShowForm false (setEditingTask None h)).
Definition handleEditTask (t : task) (h : home) : home :=
  setShowForm true (setEditingTask (Some t) h).
Definition handleCancelEdit (h : home) : home :=
  setShowForm false (setEditingTask None h).
(** The [+ New Task] button: [setShowForm(!showForm)]. *)
Definition toggleForm (h : home) : home := setShowForm (negb (showForm h)) h.

(** What the form is given as [initialData] when it is shown. *)
Definition form_initialData (h : home) : option (option task) :=
  if showForm h then Some (editingTask h) else None.

Record counts := Counts { all : nat; assigned : nat; created : nat; overdue : nat }.

(** [t.assignedTo && t.status !== 'Completed']. *)
Definition assigned_open (t : task) : value :=
  and_then (get t "assignedTo")
           (VBool (strict_ne (get t "status") (VStr "Completed"))).

(** [t.dueDate && new Date(t.dueDate) < new Date() && t.status !== 'Completed']. *)
Definition overdue_now (D : TaskItem.dates) (now : Z) (t : task) : value :=
  and_then
    (and_then (get t "dueDate")
              (VBool (TaskItem.date_lt (TaskItem.Date_new D (get t "dueDate")) (Some now))))
    (VBool (strict_ne (get t "status") (VStr "Completed"))).

(** [filterCount].  The overdue filter reads the clock once per task:
    [clock k] is the reading taken for the task at position [k]. *)
Definition filterCount (D : TaskItem.dates) (clock : nat → Z) (tasks : list task) : counts :=
  Counts (length tasks)
         (length (List.filter (λ t, truthy (assigned_open t)) tasks))
         (length tasks)
         (length (List.filter (λ kt, truthy (overdue_now D (clock kt.1) kt.2))
                              (imap pair tasks))).

End Home.

(** ** [useNotifications] *)

Module Notifications.

(** The updater of the [assignment-notification] listener:
    [[{ id, ...notification }, ...prev]], [id] being the generated one. *)
Definition receive (id : value) (notification : task) (prev : list task) : list task :=
  spread2 {[ "id" := id ]} notification :: prev.

(** The updater of [addNotification(message, type)]:
    [[...prev, { id, message, type }]]. *)
Definition addNotification (id message type : value) (prev : list task) : list task :=
  prev ++ [ {[ "id" := id; "message" := message; "type" := type ]} ].

(** [prev.filter(n => n.id !== id)]: the updater of [removeNotification(id)]
    and of both five-second timers. *)
Definition removeNotification (id : value) (prev : list task) : list task :=
  List.filter (λ n, strict_ne (get n "id") id) prev.

End Notifications.

(** ** [validate] of [lib/validation.js], with its error report *)

Module Validation.

(** How [schema.parse(data)] ends: with the validated data, by throwing a
    [ZodError] whose issues each carry a path and a message, or by throwing
    something else. *)
Inductive parsed : Type :=
  | ParseOk (validatedData : task)
  | ZodError (issues : list (list string * value))
  | OtherError.

Record result := Result {
  success : bool;
  data : option task;
  errors : gmap string value
}.

(** [err.path.join('.')]. *)
Definition join_path (path : list string) : string := String.concat "." path.

(** The [forEach] that fills [errors]. *)
Definition collect (issues : list (list string * value)) : gmap string value :=
  foldl (λ errors err, <[ join_path err.1 := err.2 ]> errors) ∅ issues.

Definition validate (p : parsed) : result :=
  match p with
  | ParseOk validatedData => Result true (Some validatedData) ∅
  | ZodError issues => Result false None (collect issues)
  | OtherError => Result false None {[ "general" := VStr "Validation failed" ]}
  end.

(** The validated data alone, as the task form uses the schema. *)
Definition parse_data (p : parsed) : option task :=
  match p with
  | ParseOk validatedData => Some validatedData
  | _ => None
  end.

End Validation.

(** ** [useAuth] *)

Module UseAuth.

(** What [await response.json()] gives for [/api/users/me]: a rejection, a
    parsed [null] (reading [data.data] then throws), or a body with its
    [data] property, the user, if it has one. *)
Inductive json_body : Type :=
  | JsonRejects
  | JsonNull
  | JsonBody (data : option task).

(** A [fetch] response.  [fetch] itself rejects only when the network
    fails, whatever the HTTP status. *)
Record fetch_response := FetchResponse { ok : bool; json : json_body }.

Abbreviation fetched := (rejection + fetch_response)%type.

(** The hook's state, the router, and the socket module it drives. *)
Record auth := Auth {
  user : option task;
  isLoading : bool;
  isAuthenticated : bool;
  pushed : list string;
  sock : Socket.state
}.

Definition setUser (u : option task) (a : auth) : auth :=
  Auth u (isLoading a) (isAuthenticated a) (pushed a) (sock a).
Definition setIsLoading (b : bool) (a : auth) : auth :=
  Auth (user a) b (isAuthenticated a) (pushed a) (sock a).
Definition setIsAuthenticated (b : bool) (a : auth) : auth :=
  Auth (user a) (isLoading a) b (pushed a) (sock a).
Definition router_push (url : string) (a : auth) : auth :=
  Auth (user a) (isLoading a) (isAuthenticated a) (pushed a ++ [url]) (sock a).
Definition on_socket (f : Socket.state → Socket.state) (a : auth) : auth :=
  Auth (user a) (isLoading a) (isAuthenticated a) (pushed a) (f (sock a)).

(** A TypeError: an exception without [response]. *)
Definition throw_plain {A} : M auth rejection A := await (inl (Rejection None)).

(** [checkAuth], [me] being the settled [fetch] of [/api/users/me]. *)
Definition checkAuth (me : fetched) : M auth rejection unit :=
  try_catch_finally
    (response ← await me;
     if ok response
     then match json response with
          | JsonRejects | JsonNull => throw_plain
          | JsonBody data =>
              modify (setUser data);;
              modify (setIsAuthenticated true);;
              match data with
              | Some u => modify (on_socket (λ st, (Socket.initSocket (get u "id") st).2))
              | None => throw_plain
              end
          end
     else modify (setIsAuthenticated false))
    (λ error, modify (setIsAuthenticated false))
    (modify (setIsLoading false)).

(** [logout], [out] being the settled [fetch] of [/api/auth/logout]. *)
Definition logout (out : fetched) : M auth rejection unit :=
  try_catch_finally
    (_ ← await out;
     modify (on_socket Socket.closeSocket);;
     modify (setUser None);;
     modify (setIsAuthenticated false);;
     modify (router_push "/login"))
    (λ error, mret ())
    (mret ()).

End UseAuth.

(** ** The login and register pages *)

Module AuthPages.

Inductive request : Type :=
  | Login (email password : value)
  | Register (email name password : value).

(** [authAPI]. *)
Record authAPI := AuthAPI {
  register : value → value → value → promise unit;
  login : value → value → promise unit
}.

Record page := Page {
  error : value;
  isLoading : bool;
  pushed : list string;
  requests : list request
}.

Definition setError (e : value) (p : page) : page :=
  Page e (isLoading p) (pushed p) (requests p).
Definition setIsLoading (b : bool) (p : page) : page :=
  Page (error p) b (pushed p) (requests p).
Definition router_push (url : string) (p : page) : page :=
  Page (error p) (isLoading p) (pushed p ++ [url]) (requests p).
Definition sent (r : request) (p : page) : page :=
  Page (error p) (isLoading p) (pushed p) (requests p ++ [r]).

(** [onSubmit] of the login page. *)
Definition login_onSubmit (loginSchema : task → Validation.parsed) (api : authAPI)
    (d : task) : M page rejection unit :=
  try_catch_finally
    (modify (setIsLoading true);;
     modify (setError (VStr ""));;
     let validation := Validation.validate (loginSchema d) in
     if negb (Validation.success validation)
     then modify (setError (VStr "Please check your input"))
     else
       modify (sent (Login (get d "email") (get d "password")));;
       response ← await (login api (get d "email") (get d "password"));
       if (res_status response =? 200)
       then modify (router_push "/")
       else mret ())
    (λ err, modify (setError (or_else (err_message err)
                                      (VStr "Login failed. Please try again."))))
    (modify (setIsLoading false)).

(** [onSubmit] of the register page. *)
Definition register_onSubmit (registerSchema : task → Validation.parsed) (api : authAPI)
    (d : task) : M page rejection unit :=
  try_catch_finally
    (modify (setIsLoading true);;
     modify (setError (VStr ""));;
     if strict_ne (get d "password") (get d "confirmPassword")
     then modify (setError (VStr "Passwords do not match"))
     else
       let validation := Validation.validate (registerSchema d) in
       if negb (Validation.success validation)
       then modify (setError (VStr "Please check your input"))
       else
         modify (sent (Register (get d "email") (get d "name") (get d "password")));;
         response ← await (register api (get d "email") (get d "name") (get d "password"));
         if (res_status response =? 201)
         then modify (router_push "/")
         else mret ())
    (λ err, modify (setError (or_else (err_message err)
                                      (VStr "Registration failed. Please try again."))))
    (modify (setIsLoading false)).

End AuthPages.

(** ** What the task form sends *)

Module Submit.

(** The object the form hands to the schema:
    [{ ...data, dueDate: data.dueDate ? new Date(data.dueDate) : undefined }]. *)
Definition schema_input (X : TaskForm.externals) (d : task) : task :=
  spread2 d {[ "dueDate" :=
    if truthy (get d "dueDate") then TaskForm.Date_object X (get d "dueDate")
    else VUndefined ]}.

(** [submitData], [dueDate] being the ISO string or [null]. *)
Definition submitData (X : TaskForm.externals) (d : task) (dueDate : value) : task :=
  spread2 (default ∅ (TaskForm.data
                        (TaskForm.validate (TaskForm.taskSchema_parse X)
                                           (schema_input X d))))
          {[ "dueDate" := dueDate ]}.

(** The [dueDate] sent, when [toISOString] does not throw. *)
Definition dueDate_sent (X : TaskForm.externals) (d : task) : option value :=
  if truthy (get d "dueDate")
  then TaskForm.Date_toISOString X (get d "dueDate")
  else Some VNull.

End Submit.

(** ** A sample session *)

Module EditExample.


(** An edit of task [t1] through the form: the schema accepts the fields,
    and the store answers the PUT with the updated task. *)
Definition stored : task :=
  {[ "id" := VStr "t1"; "title" := VStr "Ship release"; "status" := VStr "To Do" ]}.
(** The fields submitted: a title within the bounds, a priority and a
    status of the enumerations, a 3f2b8c1e-7a4d-4e9b-9c55-0d1a2b3c4d5e as assignee and no due date.  They
    are fields [taskSchema] returns as they are: no default applies, no key
    is unknown to it, and nothing is rejected. *)
Definition fields : task :=
  {[ "title" := VStr "Ship release v2"; "priority" := VStr "Medium";
     "status" := VStr "To Do"; "dueDate" := VStr "";
     "assignedToId" := VStr "3f2b8c1e-7a4d-4e9b-9c55-0d1a2b3c4d5e" ]}.
Definition updated : task :=
  {[ "id" := VStr "t1"; "title" := VStr "Ship release v2"; "status" := VStr "To Do" ]}.

(** The externals on the sample fields: a parse that returns its input, as
    [taskSchema] does on [fields] and on the fields of [Samples.draft]. *)
Definition X : TaskForm.externals :=
  TaskForm.Externals (λ d, Some d) (λ v, v) (λ v, Some v).

Definition rejected {A} : promise A := inl (Rejection None).

Definition api : taskAPI :=
  TaskAPI (λ _ _ _, rejected) rejected rejected rejected (λ _, rejected)
          (λ id _, if strict_eq id (VStr "t1")
                   then inr (Response 200 (Some (Envelope (Some updated) VUndefined)))
                   else rejected)
          (λ _, rejected).

Definition props : TaskForm.props := TaskForm.Props (Some stored) false.

(** A session with one connected socket. *)
Definition open_socket : Socket.state :=
  Socket.transport_connect 0 (Socket.initSocket (VStr "u1") Socket.initial).2.

Definition before : world TaskForm.form :=
  World (TaskForm.Form false (VStr "") 0) open_socket [].

Definition after : world TaskForm.form :=
  final (TaskForm.onSubmit X api props fields) before.

(** A clock for the overdue badge: one parsable instant. *)
Definition D : TaskItem.dates :=
  TaskItem.Dates
    (λ s, if String.eqb s "2026-01-01T00:00:00.000Z" then Some 1767225600000 else None)
    (λ _, None).

Definition due : task :=
  {[ "id" := VStr "t2"; "dueDate" := VStr "2026-01-01T00:00:00.000Z";
     "status" := VStr "To Do" ]}.

(** A task whose due date is the number 0, the first instant of 1970. *)
Definition due_epoch : task :=
  {[ "id" := VStr "t3"; "dueDate" := VNum 0; "status" := VStr "To Do" ]}.

End EditExample.

(** ** More sample data *)

Module Samples.

(** An engine that prints numbers, booleans, [null] and [undefined] the
    usual way and any object as [[object Object]]. *)
Definition E : Literal.engine :=
  Literal.Engine
    (λ v, match v with
          | VUndefined => "undefined"
          | VNull => "null"
          | VBool true => "true"
          | VBool false => "false"
          | VNum n => pretty n
          | VStr s => s
          | VRef _ => "[object Object]"
          end)
    (λ _, 1%positive).

(** The fields of a new task, again ones [taskSchema] returns as they are. *)
Definition draft : task :=
  {[ "title" := VStr "Ship release"; "priority" := VStr "Medium";
     "status" := VStr "To Do"; "dueDate" := VStr "";
     "assignedToId" := VStr "3f2b8c1e-7a4d-4e9b-9c55-0d1a2b3c4d5e" ]}.

Definition created : task :=
  {[ "id" := VStr "t9"; "title" := VStr "Ship release"; "priority" := VStr "Medium";
     "status" := VStr "To Do"; "assignedToId" := VStr "3f2b8c1e-7a4d-4e9b-9c55-0d1a2b3c4d5e" ]}.

(** A store that accepts every create. *)
Definition api_ok : taskAPI :=
  TaskAPI (λ _ _ _, EditExample.rejected) EditExample.rejected EditExample.rejected
          EditExample.rejected
          (λ _, inr (Response 201 (Some (Envelope (Some created) VUndefined))))
          (λ _ _, EditExample.rejected) (λ _, EditExample.rejected).

Definition board : list task :=
  [ {[ "id" := VStr "a"; "status" := VStr "Review" ]};
    {[ "id" := VStr "b"; "status" := VStr "To Do" ]};
    {[ "id" := VStr "c"; "status" := VStr "Archived" ]};
    {[ "id" := VStr "d"; "status" := VStr "To Do" ]} ].

End Samples.

(** * Properties *)

(** ** Properties of the patches *)

Section patch_facts.

Implicit Types (t u : task) (ts : list task) (i : value).

Lemma strict_eq_true a b : strict_eq a b = true ↔ a = b.
Proof. unfold strict_eq. apply bool_decide_eq_true. Qed.

Lemma strict_eq_false a b : strict_eq a b = false ↔ a ≠ b.
Proof. unfold strict_eq. apply bool_decide_eq_false. Qed.

Lemma strict_eq_refl a : strict_eq a a = true.
Proof. by apply strict_eq_true. Qed.

(** Merging an update into an entry with the same [id] keeps that [id],
    whether or not the update carries an [id] property of its own. *)
Lemma spread2_keeps_id t u :
  get t "id" = get u "id" → get (spread2 t u) "id" = get u "id".
Proof.
  unfold get, spread2. intros Hid.
  rewrite lookup_union. destruct (u !! "id") as [v|] eqn:Hu.
  - by destruct (t !! "id").
  - rewrite (left_id None _). exact Hid.
Qed.

Lemma spread2_idemp t u : spread2 (spread2 t u) u = spread2 t u.
Proof.
  unfold spread2. rewrite (assoc_L (∪)). by rewrite (idemp_L (∪) u).
Qed.

End patch_facts.

(** C1. Applying the [task-updated] patch for the same task twice in a row
    gives the same collection as applying it once. *)
Theorem applyUpdate_idempotent (u : task) (ts : list task) :
  applyUpdate u (applyUpdate u ts) = applyUpdate u ts.
Proof.
  unfold applyUpdate. rewrite map_map. apply map_ext. intros t.
  destruct (strict_eq (get t "id") (get u "id")) eqn:Hm.
  - apply strict_eq_true in Hm.
    rewrite (spread2_keeps_id t u Hm), strict_eq_refl.
    apply spread2_idemp.
  - by rewrite Hm.
Qed.

(** C2. The [task-created] patch puts the task in front of the collection
    whatever the collection holds; applied twice with the same task it
    leaves two entries more with that task's id than there were, at least
    two in all, and so it is not idempotent. *)
Theorem applyCreate_prepends_and_duplicates (t : task) (ts : list task) :
  applyCreate t ts = t :: ts
  ∧ applyCreate t (applyCreate t ts) = t :: t :: ts
  ∧ count_id (get t "id") (applyCreate t (applyCreate t ts))
    = S (S (count_id (get t "id") ts))
  ∧ applyCreate t (applyCreate t ts) ≠ applyCreate t ts.
Proof.
  unfold applyCreate, count_id. repeat split.
  - simpl. by rewrite strict_eq_refl.
  - intros Heq. apply (f_equal length) in Heq. simpl in Heq. lia.
Qed.

Lemma applyDelete_absent (i : value) (ts : list task) :
  id_absent i ts → applyDelete i ts = ts.
Proof.
  unfold id_absent, applyDelete, strict_ne. induction 1 as [|t ts Ht _ IH]; [done|].
  simpl. apply strict_eq_false in Ht. rewrite Ht. simpl. by rewrite IH.
Qed.

Lemma applyUpdate_absent (u : task) (ts : list task) :
  id_absent (get u "id") ts → applyUpdate u ts = ts.
Proof.
  unfold id_absent, applyUpdate. induction 1 as [|t ts Ht _ IH]; [done|].
  simpl. apply strict_eq_false in Ht. rewrite Ht. by rewrite IH.
Qed.

(** C3. When no entry of the collection has identifier [i], the
    [task-deleted] patch for [i] and the [task-updated] patch for any task
    whose id is [i] both return the collection as it was; in particular the
    update adds no entry. *)
Theorem unknown_id_is_noop (i : value) (u : task) (ts : list task) :
  id_absent i ts →
  get u "id" = i →
  applyDelete i ts = ts ∧ applyUpdate u ts = ts.
Proof.
  intros Habs Hu. split.
  - by apply applyDelete_absent.
  - apply applyUpdate_absent. by rewrite Hu.
Qed.

(** Two stored tasks and a notification about a third. *)
Lemma unknown_id_is_noop_witness :
  let ts : list task := [ {[ "id" := VStr "a"; "title" := VStr "Ship release" ]};
                          {[ "id" := VStr "b" ]} ] in
  let u : task := {[ "id" := VStr "c"; "status" := VStr "Review" ]} in
  applyDelete (VStr "c") ts = ts ∧ applyUpdate u ts = ts.
Proof.
  intros ts u. apply (unknown_id_is_noop (VStr "c") u ts).
  - unfold id_absent, ts. repeat constructor; vm_compute; discriminate.
  - reflexivity.
Defined.

(** C10. The [task-updated] patch keeps the length of the collection, keeps
    every position's identifier (so the order of the entries), and returns
    each entry whose id differs from the update's exactly as it was; an
    entry it does change is the merge of that entry with the update. *)
Theorem applyUpdate_frame (u : task) (ts : list task) :
  length (applyUpdate u ts) = length ts
  ∧ map (λ t, get t "id") (applyUpdate u ts) = map (λ t, get t "id") ts
  ∧ (∀ (k : nat) (t : task),
       ts !! k = Some t →
       applyUpdate u ts !! k
       = Some (if strict_eq (get t "id") (get u "id") then spread2 t u else t))
  ∧ (∀ (k : nat) (t : task),
       ts !! k = Some t → get t "id" ≠ get u "id" →
       applyUpdate u ts !! k = Some t).
Proof.
  assert (Hk : ∀ (k : nat) (t : task),
             ts !! k = Some t →
             applyUpdate u ts !! k
             = Some (if strict_eq (get t "id") (get u "id") then spread2 t u else t)).
  { intros k t Hk. unfold applyUpdate.
    change (map ?f ts) with (f <$> ts). by rewrite list_lookup_fmap, Hk. }
  split; [apply length_map|]. split; [|split].
  - unfold applyUpdate. rewrite map_map. apply map_ext. intros t.
    destruct (strict_eq (get t "id") (get u "id")) eqn:Hm; [|done].
    apply strict_eq_true in Hm. rewrite (spread2_keeps_id t u Hm). by symmetry.
  - exact Hk.
  - intros k t Hkt Hne. rewrite (Hk k t Hkt).
    apply strict_eq_false in Hne. by rewrite Hne.
Qed.

(** ** Loading *)

Lemma or_else_truthy (a b : value) : truthy b = true → truthy (or_else a b) = true.
Proof. unfold or_else. intros Hb. by destruct (truthy a) eqn:Ha. Qed.

(** C4. When the call selected by the filter rejects, the promise of
    [getTasksData] still fulfils (nothing escapes the [try]); the task list
    is the one held before the load; the error state holds a truthy message,
    the server's if it sent one and the default otherwise; the loading flag
    is cleared; and the router is sent to [/login] exactly when the
    rejection carries status 401. *)
Theorem getTasksData_failure
    (api : taskAPI) (o : UseTasks.options) (h : UseTasks.hook) (err : rejection) :
  UseTasks.selected api o = inl err →
  fulfils (UseTasks.getTasksData api o) h = true
  ∧ UseTasks.tasks (final (UseTasks.getTasksData api o) h) = UseTasks.tasks h
  ∧ UseTasks.error (final (UseTasks.getTasksData api o) h)
    = or_else (err_message err) (VStr "Failed to fetch tasks")
  ∧ truthy (UseTasks.error (final (UseTasks.getTasksData api o) h)) = true
  ∧ UseTasks.isLoading (final (UseTasks.getTasksData api o) h) = false
  ∧ UseTasks.pushed (final (UseTasks.getTasksData api o) h)
    = if decide (err_status err = VNum 401)
      then UseTasks.pushed h ++ ["/login"%string]
      else UseTasks.pushed h.
Proof.
  intros Hsel.
  unfold fulfils, final, UseTasks.getTasksData, try_catch_finally, await, modify.
  unfold mbind, M_bind, mret, M_ret. rewrite Hsel. cbn.
  unfold strict_eq.
  destruct (decide (err_status err = VNum 401)) as [H401|H401].
  - rewrite bool_decide_eq_true_2 by done. cbn.
    repeat split. by apply or_else_truthy.
  - rewrite bool_decide_eq_false_2 by done. cbn.
    repeat split. by apply or_else_truthy.
Qed.

(** A load of the [all] view answered with 401. *)
Lemma getTasksData_failure_witness :
  let unauthorised : rejection := Rejection (Some (Response 401 None)) in
  let api := TaskAPI (λ _ _ _, inl unauthorised) (inl unauthorised) (inl unauthorised)
                     (inl unauthorised) (λ _, inl unauthorised)
                     (λ _ _, inl unauthorised) (λ _, inl unauthorised) in
  let o := UseTasks.Options "all" (VStr "In Progress") VUndefined (VStr "dueDate") in
  let h := UseTasks.Hook [ {[ "id" := VStr "a" ]} ] false VNull [] in
  UseTasks.tasks (final (UseTasks.getTasksData api o) h) = [ {[ "id" := VStr "a" ]} ]
  ∧ UseTasks.pushed (final (UseTasks.getTasksData api o) h) = ["/login"%string].
Proof.
  intros unauthorised api o h.
  destruct (getTasksData_failure api o h unauthorised eq_refl)
    as (_ & Htasks & _ & _ & _ & Hpush).
  split; [exact Htasks | exact Hpush].
Defined.

(** ** Emission after writes *)

(** The calls a handler appended, found by re-associating the log. *)
Lemma calls_suffix0 (l : list call) : l = l ++ [].
Proof. by rewrite app_nil_r. Qed.
Lemma calls_suffix2 (l : list call) a b : (l ++ [a]) ++ [b] = l ++ [a; b].
Proof. by rewrite <- app_assoc. Qed.
Lemma calls_suffix3 (l : list call) a b c : ((l ++ [a]) ++ [b]) ++ [c] = l ++ [a; b; c].
Proof. by rewrite <- !app_assoc. Qed.
Lemma calls_suffix4 (l : list call) a b c d :
  (((l ++ [a]) ++ [b]) ++ [c]) ++ [d] = l ++ [a; b; c; d].
Proof. by rewrite <- !app_assoc. Qed.

Ltac unfold_handler :=
  unfold write_gates_emit, fulfils, final, try_catch_finally, request_write,
    emitTaskUpdated, emitTaskCreated, emitTaskDeleted, emitTaskAssigned, call_emit,
    call_prop, setState, await, modify, TaskForm.throw_plain;
  unfold mbind, M_bind, mret, M_ret.

Ltac find_suffix :=
  first [ apply calls_suffix4 | apply calls_suffix3 | apply calls_suffix2
        | reflexivity | apply calls_suffix0 ].

Ltac close_gate api :=
  cbn; split; [reflexivity|];
  eexists; split; [find_suffix|];
  split; [repeat constructor; cbn; unfold write_fulfils;
          repeat match goal with H : _ = _ |- _ => rewrite H end; reflexivity|];
  split; [reflexivity|]; cbn; intros; first [discriminate | split; reflexivity].

Lemma handleStatusChange_gated (api : taskAPI) (p : TaskItem.props) (v : value) :
  write_gates_emit api (TaskItem.handleStatusChange api p v).
Proof.
  unfold TaskItem.handleStatusChange. unfold_handler. intros w.
  destruct (strict_eq v (get (TaskItem.task_ p) "status")); [close_gate api|].
  destruct (updateTask api _ _) eqn:Hw; [close_gate api|].
  destruct (TaskItem.onTaskUpdated p); close_gate api.
Qed.

Lemma handlePriorityChange_gated (api : taskAPI) (p : TaskItem.props) (v : value) :
  write_gates_emit api (TaskItem.handlePriorityChange api p v).
Proof.
  unfold TaskItem.handlePriorityChange. unfold_handler. intros w.
  destruct (strict_eq v (get (TaskItem.task_ p) "priority")); [close_gate api|].
  destruct (updateTask api _ _) eqn:Hw; [close_gate api|].
  destruct (TaskItem.onTaskUpdated p); close_gate api.
Qed.

Lemma handleDelete_gated (api : taskAPI) (p : TaskItem.props) :
  write_gates_emit api (TaskItem.handleDelete api p).
Proof.
  unfold TaskItem.handleDelete. unfold_handler. intros w.
  destruct (deleteTask api _) eqn:Hw; [close_gate api|].
  destruct (TaskItem.onTaskDeleted p); close_gate api.
Qed.

Lemma onSubmit_gated (X : TaskForm.externals) (api : taskAPI)
    (p : TaskForm.props) (d : task) :
  write_gates_emit api (TaskForm.onSubmit X api p d).
Proof.
  unfold TaskForm.onSubmit. unfold_handler. intros w.
  destruct (negb _); [close_gate api|].
  set (validated := default ∅ _).
  destruct (truthy (get d "dueDate")).
  - destruct (TaskForm.Date_toISOString X _) as [iso|]; [|close_gate api].
    destruct (TaskForm.initialData p) as [initial|].
    + destruct (updateTask api _ _) eqn:Hw; [close_gate api|].
      destruct (TaskForm.onTaskCreated p); close_gate api.
    + destruct (createTask api _) eqn:Hw; [close_gate api|].
      destruct (truthy (get _ "assignedToId"));
        destruct (TaskForm.onTaskCreated p); close_gate api.
  - destruct (TaskForm.initialData p) as [initial|].
    + destruct (updateTask api _ _) eqn:Hw; [close_gate api|].
      destruct (TaskForm.onTaskCreated p); close_gate api.
    + destruct (createTask api _) eqn:Hw; [close_gate api|].
      destruct (truthy (get _ "assignedToId"));
        destruct (TaskForm.onTaskCreated p); close_gate api.
Qed.

(** C5. For the status update, the priority update and the delete of
    [TaskItem], and for the submit of [TaskForm] (create, and edit as
    well): the handler ends normally; every call of an [emit...] function it
    makes comes after a remote write of the same run whose promise
    fulfilled; and when no write fulfilled (it rejected, or none was sent)
    the handler makes no emit call and leaves the socket module untouched. *)
Theorem emit_only_after_successful_write (X : TaskForm.externals) (api : taskAPI) :
  (∀ p newStatus, write_gates_emit api (TaskItem.handleStatusChange api p newStatus))
  ∧ (∀ p newPriority, write_gates_emit api (TaskItem.handlePriorityChange api p newPriority))
  ∧ (∀ p, write_gates_emit api (TaskItem.handleDelete api p))
  ∧ (∀ p d, write_gates_emit api (TaskForm.onSubmit X api p d)).
Proof.
  split; [|split; [|split]].
  - apply handleStatusChange_gated.
  - apply handlePriorityChange_gated.
  - apply handleDelete_gated.
  - apply onSubmit_gated.
Qed.

(** ** The event that describes an update *)

(** C6 (the form's edit path emits the wrong event). On a successful edit
    of task [t1] the form calls [emitTaskCreated] with the updated task: the
    socket is asked to emit [task-created], and no [task-updated] is
    emitted.  The priority change of [TaskItem] on the same task and store
    emits [task-updated] with the updated task. *)
Theorem edit_submit_emits_task_created :
  calls EditExample.after
  = [ CallAPI (PutTask (VStr "t1")
                       (spread2 (spread2 EditExample.fields {[ "dueDate" := VUndefined ]})
                                {[ "dueDate" := VNull ]}))
              true;
      CallEmit (Socket.TaskCreated (Some EditExample.updated)) ]
  ∧ Socket.sent_by 0 (chan EditExample.after)
    = [ Socket.UserJoin (VStr "u1"); Socket.TaskCreated (Some EditExample.updated) ]
  ∧ ¬ In (Socket.TaskUpdated (Some EditExample.updated))
           (Socket.sent_by 0 (chan EditExample.after))
  ∧ Socket.sent_by 0
      (chan (final (TaskItem.handlePriorityChange EditExample.api
                      (TaskItem.Props EditExample.stored false false) (VStr "High"))
                   (World (TaskItem.Item false false false) EditExample.open_socket [])))
    = [ Socket.UserJoin (VStr "u1"); Socket.TaskUpdated (Some EditExample.updated) ].
Proof.
  split; [by vm_compute|]. split; [by vm_compute|]. split; [|by vm_compute].
  replace (Socket.sent_by 0 (chan EditExample.after))
    with [ Socket.UserJoin (VStr "u1"); Socket.TaskCreated (Some EditExample.updated) ]
    by (by vm_compute).
  simpl. intros [H|[H|[]]]; discriminate H.
Qed.

(** ** The socket module *)

Section socket_facts.

Import Socket.
Implicit Types (st : state) (s : instance) (l : list instance) (i j : nat).

Lemma frame_refl st : frame st st.
Proof. split; [done|]. intros j. by destruct (instances st !! j). Qed.

Lemma frame_trans st1 st2 st3 : frame st1 st2 → frame st2 st3 → frame st1 st3.
Proof.
  intros [Hs12 H12] [Hs23 H23]. split; [congruence|]. intros j.
  specialize (H12 j). specialize (H23 j).
  destruct (instances st1 !! j), (instances st2 !! j), (instances st3 !! j);
    try done. split; [by rewrite (proj1 H23), (proj1 H12) | by rewrite (proj2 H23), (proj2 H12)].
Qed.

(** Changing one instance by a function that touches neither [active] nor
    [announce] stays within the frame. *)
Lemma alter_frame (f : instance → instance) i st :
  (∀ s, active (f s) = active s ∧ announce (f s) = announce s) →
  frame st (State (alter f i (instances st)) (socket st)).
Proof.
  intros Hf. split; [done|]. intros j. simpl.
  destruct (decide (i = j)) as [->|Hne].
  - rewrite list_lookup_alter_eq. destruct (instances st !! j); simpl; [apply Hf|done].
  - rewrite list_lookup_alter_ne by done. by destruct (instances st !! j).
Qed.

Lemma emit_frame e st : frame st (emit e st).
Proof.
  unfold emit. destruct (socket st) as [i|] eqn:Hs; [|apply frame_refl].
  rewrite <- Hs. by apply alter_frame.
Qed.

Lemma on_frame name cb st : frame st (on name cb st).
Proof.
  unfold on. destruct (socket st) as [i|] eqn:Hs; [|apply frame_refl].
  rewrite <- Hs. by apply alter_frame.
Qed.

Lemma transport_drop_frame i st : frame st (transport_drop i st).
Proof. by apply alter_frame. Qed.

Lemma transport_connect_frame i st : frame st (transport_connect i st).
Proof.
  unfold transport_connect. destruct (instances st !! i) as [s|]; [|apply frame_refl].
  destruct (active s && negb (connected s)); [|apply frame_refl].
  eapply frame_trans; [|apply emit_frame]. by apply alter_frame.
Qed.

Lemma exclusive_frame st st' : exclusive st → frame st st' → exclusive st'.
Proof.
  intros Hex [Hsock Hf] j s' Hj Hact. rewrite Hsock. specialize (Hf j).
  rewrite Hj in Hf. destruct (instances st !! j) as [s|] eqn:Hold; [|done].
  apply (Hex j s Hold). destruct Hf as [Ha _]. by rewrite <- Ha.
Qed.

Lemma holds_frame i u st st' : holds i u st → frame st st' → holds i u st'.
Proof.
  intros [Hsock (s & Hi & Hact & Hann)] [Hsock' Hf]. split; [congruence|].
  specialize (Hf i). rewrite Hi in Hf.
  destruct (instances st' !! i) as [s'|]; [|done]. destruct Hf as [Ha Hu].
  exists s'. repeat split; congruence.
Qed.

(** The instance a fresh [io(...)] adds. *)
Lemma exclusive_create u st :
  (∀ j s, instances st !! j = Some s → active s = false) →
  exclusive (State (instances st ++ [Instance false true u [] []])
                   (Some (length (instances st)))).
Proof.
  intros Hnone j s Hj Hact. simpl in *.
  destruct (decide (j < length (instances st))%nat) as [Hlt|Hge].
  - rewrite lookup_app_l in Hj by done. rewrite (Hnone j s Hj) in Hact. discriminate.
  - rewrite lookup_app_r in Hj by lia.
    destruct (j - length (instances st))%nat as [|k] eqn:Hk; [|by destruct k].
    f_equal. lia.
Qed.

Lemma exclusive_step o st :
  exclusive st →
  match o with
  | OpInit _ => match socket st with None => true | Some _ => socket_connected st end
  | _ => true
  end = true →
  exclusive (step o st).
Proof.
  intros Hex Hok. destruct o as [u| |e|name cb|i|i]; simpl.
  - unfold initSocket. destruct (socket st) as [i|] eqn:Hs.
    + rewrite Hok. simpl. eapply exclusive_frame; [done|apply emit_frame].
    + simpl. apply exclusive_create.
      intros j s Hj. destruct (active s) eqn:Hact; [|done].
      specialize (Hex j s Hj Hact). congruence.
  - unfold closeSocket. destruct (socket st) as [i|] eqn:Hs; [|done].
    intros j s' Hj Hact. simpl in *. exfalso.
    destruct (decide (i = j)) as [->|Hne].
    + rewrite list_lookup_alter_eq in Hj.
      destruct (instances st !! j); simplify_eq/=.
    + rewrite list_lookup_alter_ne in Hj by done.
      specialize (Hex j s' Hj Hact). congruence.
  - eapply exclusive_frame; [done|apply emit_frame].
  - eapply exclusive_frame; [done|apply on_frame].
  - eapply exclusive_frame; [done|apply transport_connect_frame].
  - eapply exclusive_frame; [done|apply transport_drop_frame].
Qed.

Lemma exclusive_run tr st :
  exclusive st → opens_when_idle_or_connected tr st = true → exclusive (run tr st).
Proof.
  revert st. induction tr as [|o tr IH]; intros st Hex Hok; [done|].
  simpl in Hok. apply andb_true_iff in Hok as [Ho Htr].
  change (run (o :: tr) st) with (run tr (step o st)).
  apply IH; [|done]. by apply exclusive_step.
Qed.

Lemma none_active_filter l :
  (∀ j s, l !! j = Some s → active s = false) → List.filter active l = [].
Proof.
  induction l as [|a l IH]; intros H; [done|]. simpl.
  rewrite (H 0%nat a eq_refl). apply IH. intros j s Hj. by apply (H (S j) s).
Qed.










End socket_facts.




(** ** Subscriptions *)

(** C8 (the registration functions return nothing to dispose). Each of the
    four registration functions returns [undefined], for every callback and
    every state of the module; the cleanup of the [useTasks] effect
    therefore calls nothing and changes nothing; and in a session with a
    connected socket the three listeners the effect added are still
    registered after its cleanup ran. *)
Theorem registration_returns_no_disposer :
  (∀ (callback : nat) (st : Socket.state),
     (Socket.onTaskUpdated callback st).1 = None
     ∧ (Socket.onTaskCreated callback st).1 = None
     ∧ (Socket.onTaskDeleted callback st).1 = None
     ∧ (Socket.onAssignmentNotification callback st).1 = None)
  ∧ (∀ (cbU cbC cbD : nat) (st st' : Socket.state),
       (UseTasksEffect.mount cbU cbC cbD st).1 st' = st')
  ∧ (let mounted := UseTasksEffect.mount 1 2 3 EditExample.open_socket in
     option_map Socket.listeners (Socket.current (mounted.1 mounted.2))
     = Some [("task-updated"%string, 1%nat); ("task-created"%string, 2%nat);
             ("task-deleted"%string, 3%nat)]).
Proof.
  split; [done|]. split; [done|]. by vm_compute.
Qed.

(** ** The overdue badge *)

Section overdue.

Import TaskItem.
Variable D : dates.
Variable now : Z.
Implicit Types t : task.

Lemma isOverdue_truthy t :
  truthy (isOverdue D now t) = true
  ↔ truthy (get t "dueDate") = true
    ∧ date_lt (Date_new D (get t "dueDate")) (Some now) = true
    ∧ get t "status" ≠ VStr "Completed".
Proof.
  unfold isOverdue, and_then, strict_ne.
  destruct (truthy (get t "dueDate")) eqn:Hd; simpl.
  - destruct (date_lt _ _) eqn:Hlt; simpl.
    + destruct (strict_eq (get t "status") (VStr "Completed")) eqn:Hs; simpl.
      * apply strict_eq_true in Hs. split; [done|]. by intros (_ & _ & ?).
      * apply strict_eq_false in Hs. by split.
    + split; [done|]. by intros (_ & ? & _).
  - rewrite !Hd. split; [done|]. by intros (? & _).
Qed.

Lemma date_lt_before t :
  date_lt (Date_new D (get t "dueDate")) (Some now) = true ↔ due_before D now t.
Proof.
  unfold due_before, date_lt. destruct (Date_new D (get t "dueDate")) as [d|].
  - rewrite Z.ltb_lt. split.
    + intros Hlt. by exists d.
    + intros (d' & Heq & Hlt). by simplify_eq.
  - split; [done|]. by intros (d' & Heq & _).
Qed.

(** For a serialised due date, "truthy" is "present and not the empty
    string", and the empty string is not a date. *)
Lemma serialised_truthy t :
  Date_parse D "" = None →
  dueDate_serialised t →
  truthy (get t "dueDate") = true ∧ due_before D now t
  ↔ has_dueDate t ∧ due_before D now t.
Proof.
  intros Hempty Hser. unfold has_dueDate, due_before.
  destruct Hser as [Hu|[Hn|[s Hs]]].
  - rewrite Hu. simpl. split; [by intros [? _] | by intros [[? _] _]].
  - rewrite Hn. simpl. split; [by intros [? _] | by intros [[_ ?] _]].
  - rewrite Hs. simpl. split.
    + intros [_ Hb]. done.
    + intros [_ (d & Hp & Hlt)]. split; [|by exists d].
      destruct (String.eqb_spec s ""); [|done]. subst s. congruence.
Qed.

End overdue.

(** C9, as stated: "true exactly when the task has a due date present,
    that due date is strictly earlier than now, and the status is not
    Completed".  A task due at instant 0 has a due date, which is before
    any later [now], and its status is ['To Do']; yet the expression is the
    falsy [0], because the first operand of [&&] tests the due date's
    truthiness. *)
Lemma isOverdue_epoch_counterexample :
  TaskItem.has_dueDate EditExample.due_epoch
  ∧ TaskItem.due_before EditExample.D 1000 EditExample.due_epoch
  ∧ get EditExample.due_epoch "status" ≠ VStr "Completed"
  ∧ TaskItem.isOverdue EditExample.D 1000 EditExample.due_epoch = VNum 0
  ∧ ¬ (truthy (TaskItem.isOverdue EditExample.D 1000 EditExample.due_epoch) = true
       ↔ TaskItem.has_dueDate EditExample.due_epoch
         ∧ TaskItem.due_before EditExample.D 1000 EditExample.due_epoch
         ∧ get EditExample.due_epoch "status" ≠ VStr "Completed").
Proof.
  assert (TaskItem.has_dueDate EditExample.due_epoch) as Hhas
    by (split; vm_compute; discriminate).
  assert (TaskItem.due_before EditExample.D 1000 EditExample.due_epoch) as Hbefore
    by (exists 0; split; [reflexivity | lia]).
  assert (get EditExample.due_epoch "status" ≠ VStr "Completed") as Hstatus
    by (vm_compute; discriminate).
  split; [done|]. split; [done|]. split; [done|]. split; [reflexivity|].
  intros [_ H]. specialize (H (conj Hhas (conj Hbefore Hstatus))).
  vm_compute in H. discriminate.
Qed.

(** C9, amended. For every task and every [now], the overdue expression is
    truthy exactly when the task's [dueDate] is truthy, the instant
    [new Date(dueDate)] denotes is strictly before [now], and the status is
    not ['Completed']; it is then the boolean [true].  For a due date that
    is missing, [null] or a string ([Date.parse("")] being NaN), a truthy
    due date before [now] is the same as a present one before [now].  So a
    task with a truthy due date one second before [now] and status
    ['To Do'] is overdue, the same task with status ['Completed'] is not,
    and a task due one hour after [now] is not, whatever its status. *)
Theorem isOverdue_spec (D : TaskItem.dates) (now : Z) (t : task) :
  (truthy (TaskItem.isOverdue D now t) = true
   ↔ truthy (get t "dueDate") = true ∧ TaskItem.due_before D now t
     ∧ get t "status" ≠ VStr "Completed")
  ∧ (truthy (TaskItem.isOverdue D now t) = true →
     TaskItem.isOverdue D now t = VBool true)
  ∧ (TaskItem.Date_parse D "" = None → TaskItem.dueDate_serialised t →
     (truthy (get t "dueDate") = true ∧ TaskItem.due_before D now t
      ↔ TaskItem.has_dueDate t ∧ TaskItem.due_before D now t))
  ∧ (truthy (get t "dueDate") = true →
     TaskItem.Date_new D (get t "dueDate") = Some (now - 1000) →
     (get t "status" = VStr "To Do" → TaskItem.isOverdue D now t = VBool true)
     ∧ (get t "status" = VStr "Completed" →
        truthy (TaskItem.isOverdue D now t) = false))
  ∧ (TaskItem.Date_new D (get t "dueDate") = Some (now + 3600000) →
     truthy (TaskItem.isOverdue D now t) = false).
Proof.
  split; [|split; [|split; [|split]]].
  - by rewrite isOverdue_truthy, date_lt_before.
  - unfold TaskItem.isOverdue, and_then, strict_ne.
    destruct (truthy (get t "dueDate")) eqn:Hd; simpl.
    + destruct (TaskItem.date_lt _ _); simpl; [|done].
      by destruct (strict_eq (get t "status") (VStr "Completed")).
    + by rewrite !Hd.
  - apply serialised_truthy.
  - intros Hd Hp. unfold TaskItem.isOverdue, and_then, strict_ne.
    rewrite Hd, Hp. simpl.
    replace (now - 1000 <? now) with true by (symmetry; apply Z.ltb_lt; lia).
    simpl. split; intros ->; reflexivity.
  - intros Hp.
    destruct (truthy (TaskItem.isOverdue D now t)) eqn:Ho; [|done].
    apply isOverdue_truthy in Ho as (_ & Hlt & _).
    rewrite Hp in Hlt. simpl in Hlt. apply Z.ltb_lt in Hlt. lia.
Qed.

(** A task due at midnight, looked at one second later. *)
Lemma isOverdue_spec_witness :
  TaskItem.isOverdue EditExample.D 1767225601000 EditExample.due = VBool true.
Proof.
  destruct (isOverdue_spec EditExample.D 1767225601000 EditExample.due)
    as (_ & _ & _ & Hpast & _).
  exact (proj1 (Hpast eq_refl eq_refl) eq_refl).
Defined.

(** * Further properties of the code *)

(** ** How the patches compose *)

Lemma strict_ne_true a b : strict_ne a b = true ↔ a ≠ b.
Proof. unfold strict_ne. rewrite negb_true_iff. apply strict_eq_false. Qed.

(** X1. The [task-deleted] patch leaves no entry with the deleted id and
    removes nothing else: what it returns is the collection with exactly
    the entries of that id taken out, the others in the order they had,
    each as it was.  It is idempotent. *)
Theorem applyDelete_removes_every_match (i : value) (ts : list task) :
  count_id i (applyDelete i ts) = 0%nat
  ∧ applyDelete i ts `sublist_of` ts
  ∧ (length (applyDelete i ts) + count_id i ts)%nat = length ts
  ∧ (∀ l, l `sublist_of` ts → count_id i l = 0%nat → l `sublist_of` applyDelete i ts)
  ∧ (∀ j, j ≠ i →
       List.filter (λ t, strict_eq (get t "id") j) (applyDelete i ts)
       = List.filter (λ t, strict_eq (get t "id") j) ts)
  ∧ applyDelete i (applyDelete i ts) = applyDelete i ts.
Proof.
  unfold count_id, applyDelete. split; [|split; [|split; [|split; [|split]]]].
  - induction ts as [|t ts IH]; [done|]. simpl.
    destruct (strict_ne (get t "id") i) eqn:Hne; [|done]. simpl.
    apply strict_ne_true, strict_eq_false in Hne. by rewrite Hne.
  - induction ts as [|t ts IH]; [constructor|]. simpl.
    destruct (strict_ne (get t "id") i); by constructor.
  - induction ts as [|t ts IH]; [done|]. simpl. unfold strict_ne at 1.
    destruct (strict_eq (get t "id") i); simpl; lia.
  - intros l Hsub. induction Hsub as [|t l ts' Hsub IH|t l ts' Hsub IH]; intros Hl.
    + constructor.
    + simpl in *. destruct (strict_eq (get t "id") i) eqn:Hm; [done|].
      unfold strict_ne. rewrite Hm. simpl. constructor. by apply IH.
    + simpl. destruct (strict_ne (get t "id") i); [constructor|]; by apply IH.
  - intros j Hj. induction ts as [|t ts IH]; [done|]. simpl.
    destruct (strict_ne (get t "id") i) eqn:Hne; simpl; [by rewrite IH|].
    unfold strict_ne in Hne. apply negb_false_iff, strict_eq_true in Hne.
    assert (strict_eq (get t "id") j = false) as ->; [|done].
    apply strict_eq_false. congruence.
  - induction ts as [|t ts IH]; [done|]. simpl.
    destruct (strict_ne (get t "id") i) eqn:Hne; [|done]. simpl.
    by rewrite Hne, IH.
Qed.

(** X2. One [task-deleted] undoes any number of [task-created] for the same
    task: deleting after [n] creations gives what deleting alone gives, and
    the collection as it was when the id was not in it. *)
Theorem applyDelete_undoes_applyCreate (t : task) (ts : list task) (n : nat) :
  applyDelete (get t "id") (Nat.iter n (applyCreate t) ts)
  = applyDelete (get t "id") ts
  ∧ (id_absent (get t "id") ts →
     applyDelete (get t "id") (Nat.iter n (applyCreate t) ts) = ts).
Proof.
  assert (applyDelete (get t "id") (Nat.iter n (applyCreate t) ts)
          = applyDelete (get t "id") ts) as Heq.
  { induction n as [|n IH]; [done|]. simpl. unfold applyCreate at 1.
    unfold applyDelete at 1. simpl. unfold strict_ne. by rewrite strict_eq_refl. }
  split; [done|]. intros Habs. rewrite Heq. by apply applyDelete_absent.
Qed.

(** The entry the [task-updated] patch returns for [t] has [t]'s id. *)
Lemma patched_id (u t : task) :
  get (if strict_eq (get t "id") (get u "id") then spread2 t u else t) "id"
  = get t "id".
Proof.
  destruct (strict_eq (get t "id") (get u "id")) eqn:Hm; [|done].
  apply strict_eq_true in Hm. by rewrite (spread2_keeps_id t u Hm).
Qed.

(** X3. A [task-updated] and a [task-deleted] patch can be applied in either
    order, whatever their ids. *)
Theorem applyUpdate_applyDelete_commute (u : task) (i : value) (ts : list task) :
  applyDelete i (applyUpdate u ts) = applyUpdate u (applyDelete i ts).
Proof.
  unfold applyDelete, applyUpdate. induction ts as [|t ts IH]; [done|]. simpl.
  rewrite patched_id. destruct (strict_ne (get t "id") i); simpl; by rewrite IH.
Qed.

(** X4. Two [task-updated] patches for the same id, one after the other,
    amount to one patch with the second update merged over the first. *)
Theorem applyUpdate_twice_merges (u1 u2 : task) (ts : list task) :
  get u1 "id" = get u2 "id" →
  applyUpdate u2 (applyUpdate u1 ts) = applyUpdate (spread2 u1 u2) ts.
Proof.
  intros Hid. unfold applyUpdate. rewrite map_map. apply map_ext. intros t.
  rewrite (spread2_keeps_id u1 u2 Hid).
  destruct (strict_eq (get t "id") (get u1 "id")) eqn:Hm.
  - apply strict_eq_true in Hm.
    assert (strict_eq (get t "id") (get u2 "id") = true) as H2
      by (apply strict_eq_true; congruence).
    assert (strict_eq (get (spread2 t u1) "id") (get u2 "id") = true) as H12
      by (apply strict_eq_true; rewrite (spread2_keeps_id t u1 Hm); congruence).
    rewrite H2, H12. unfold spread2. by rewrite (assoc_L (∪)).
  - assert (strict_eq (get t "id") (get u2 "id") = false) as H2
      by (apply strict_eq_false; apply strict_eq_false in Hm; congruence).
    by rewrite H2.
Qed.

Lemma applyUpdate_twice_merges_witness :
  let ts : list task := [ {[ "id" := VStr "a"; "status" := VStr "To Do" ]} ] in
  applyUpdate {[ "id" := VStr "a"; "priority" := VStr "High" ]}
    (applyUpdate {[ "id" := VStr "a"; "status" := VStr "Review" ]} ts)
  = applyUpdate (spread2 {[ "id" := VStr "a"; "status" := VStr "Review" ]}
                         {[ "id" := VStr "a"; "priority" := VStr "High" ]}) ts.
Proof.
  intros ts.
  apply (applyUpdate_twice_merges
           {[ "id" := VStr "a"; "status" := VStr "Review" ]}
           {[ "id" := VStr "a"; "priority" := VStr "High" ]} ts).
  reflexivity.
Defined.

(** X5. [task-updated] patches for two different ids can be applied in
    either order. *)
Theorem applyUpdate_distinct_commute (u1 u2 : task) (ts : list task) :
  get u1 "id" ≠ get u2 "id" →
  applyUpdate u1 (applyUpdate u2 ts) = applyUpdate u2 (applyUpdate u1 ts).
Proof.
  intros Hne. unfold applyUpdate. rewrite !map_map. apply map_ext. intros t.
  rewrite !patched_id.
  destruct (strict_eq (get t "id") (get u1 "id")) eqn:H1;
    destruct (strict_eq (get t "id") (get u2 "id")) eqn:H2; try done.
  apply strict_eq_true in H1, H2. congruence.
Qed.

Lemma applyUpdate_distinct_commute_witness :
  let ts : list task := [ {[ "id" := VStr "a" ]}; {[ "id" := VStr "b" ]} ] in
  applyUpdate {[ "id" := VStr "a"; "status" := VStr "Review" ]}
    (applyUpdate {[ "id" := VStr "b"; "status" := VStr "Completed" ]} ts)
  = applyUpdate {[ "id" := VStr "b"; "status" := VStr "Completed" ]}
      (applyUpdate {[ "id" := VStr "a"; "status" := VStr "Review" ]} ts).
Proof.
  intros ts.
  apply (applyUpdate_distinct_commute
           {[ "id" := VStr "a"; "status" := VStr "Review" ]}
           {[ "id" := VStr "b"; "status" := VStr "Completed" ]} ts).
  vm_compute. discriminate.
Defined.

(** ** A load that succeeds *)

(** X6. When the selected call fulfils, [getTasksData] replaces the whole
    collection by [response.data?.data], or by the empty list when the
    answer has none; it clears the error and the loading flag, asks for no
    navigation and ends normally. *)
Theorem getTasksData_success
    (api : taskAPI) (o : UseTasks.options) (h : UseTasks.hook)
    (r : response (list task)) :
  UseTasks.selected api o = inr r →
  fulfils (UseTasks.getTasksData api o) h = true
  ∧ UseTasks.tasks (final (UseTasks.getTasksData api o) h) = default [] (data_data r)
  ∧ (data_data r = None → UseTasks.tasks (final (UseTasks.getTasksData api o) h) = [])
  ∧ UseTasks.error (final (UseTasks.getTasksData api o) h) = VNull
  ∧ UseTasks.isLoading (final (UseTasks.getTasksData api o) h) = false
  ∧ UseTasks.pushed (final (UseTasks.getTasksData api o) h) = UseTasks.pushed h.
Proof.
  intros Hsel.
  unfold fulfils, final, UseTasks.getTasksData, try_catch_finally, await, modify.
  unfold mbind, M_bind, mret, M_ret. rewrite Hsel. cbn.
  repeat split. by intros ->.
Qed.

(** A load of the [assigned] view answered with a body that has no [data]. *)
Lemma getTasksData_success_witness :
  let gone {A} : promise A := inl (Rejection None) in
  let api := TaskAPI (λ _ _ _, gone) (inr (Response 200 (Some (Envelope None VUndefined))))
                     gone gone (λ _, gone) (λ _ _, gone) (λ _, gone) in
  let o := UseTasks.Options "assigned" VUndefined VUndefined (VStr "dueDate") in
  let h := UseTasks.Hook [ {[ "id" := VStr "a" ]} ] false (VStr "old error") [] in
  UseTasks.tasks (final (UseTasks.getTasksData api o) h) = []
  ∧ UseTasks.error (final (UseTasks.getTasksData api o) h) = VNull.
Proof.
  intros gone api o h.
  destruct (getTasksData_success api o h _ eq_refl) as (_ & _ & Hnone & Herr & _).
  split; [by apply Hnone | exact Herr].
Defined.

(** ** More on the socket module *)

Section socket_more.

Import Socket.
Implicit Types (st : state) (s : instance) (i j : nat).

Lemma closeSocket_socket st : socket (closeSocket st) = None.
Proof. unfold closeSocket. by destruct (socket st) eqn:Hs. Qed.

Lemma exclusive_closed st : exclusive st → exclusive (closeSocket st).
Proof. intros Hex. by apply (exclusive_step OpClose). Qed.

Lemma live_none st :
  exclusive st → socket st = None → live st = 0%nat.
Proof.
  intros Hex Hs. unfold live. rewrite none_active_filter; [done|].
  intros j s Hj. destruct (active s) eqn:Ha; [|done].
  specialize (Hex j s Hj Ha). congruence.
Qed.

Lemma live_some st i s :
  instances st !! i = Some s → active s = true → (1 ≤ live st)%nat.
Proof.
  intros Hi Ha. unfold live.
  assert (In s (List.filter active (instances st))) as Hin.
  { apply filter_In. split; [|done]. apply list_elem_of_In.
    by apply (list_elem_of_lookup_2 _ i). }
  destruct (List.filter active (instances st)); [destruct Hin | simpl; lia].
Qed.

End socket_more.

(** X7. After [closeSocket] the module holds no socket, so every
    [emit...] and every registration is dropped without a trace, and a
    second [closeSocket] changes nothing. *)
Theorem closeSocket_silences (st : Socket.state) :
  Socket.getSocket (Socket.closeSocket st) = None
  ∧ (∀ e, Socket.emit e (Socket.closeSocket st) = Socket.closeSocket st)
  ∧ (∀ name cb, Socket.on name cb (Socket.closeSocket st) = Socket.closeSocket st)
  ∧ (∀ cbU cbC cbD,
       (UseTasksEffect.mount cbU cbC cbD (Socket.closeSocket st)).2
       = Socket.closeSocket st)
  ∧ Socket.closeSocket (Socket.closeSocket st) = Socket.closeSocket st.
Proof.
  pose proof (closeSocket_socket st) as Hs.
  assert (∀ name cb, Socket.on name cb (Socket.closeSocket st) = Socket.closeSocket st)
    as Hon by (intros; unfold Socket.on; by rewrite Hs).
  split; [done|]. split; [|split; [done|split]].
  - intros e. unfold Socket.emit. by rewrite Hs.
  - intros cbU cbC cbD. unfold UseTasksEffect.mount, Socket.onTaskUpdated,
      Socket.onTaskCreated, Socket.onTaskDeleted. simpl. by rewrite !Hon.
  - unfold Socket.closeSocket at 1. by rewrite Hs.
Qed.

(** X8. In a session where [initSocket] is only called when no socket is
    held or the held one is connected, [closeSocket] leaves no transport
    that the client has not disconnected. *)
Theorem closeSocket_leaves_no_transport (tr : list Socket.op) :
  Socket.opens_when_idle_or_connected tr Socket.initial = true →
  Socket.live (Socket.closeSocket (Socket.run tr Socket.initial)) = 0%nat.
Proof.
  intros Htr. apply live_none; [|apply closeSocket_socket].
  apply exclusive_closed, exclusive_run; [|done].
  intros j s Hj. simpl in Hj. by rewrite lookup_nil in Hj.
Qed.

Lemma closeSocket_leaves_no_transport_witness :
  Socket.live (Socket.closeSocket
                 (Socket.run [Socket.OpInit (VStr "u1"); Socket.OpConnect 0;
                              Socket.OpInit (VStr "u1")] Socket.initial)) = 0%nat.
Proof.
  apply (closeSocket_leaves_no_transport
           [Socket.OpInit (VStr "u1"); Socket.OpConnect 0; Socket.OpInit (VStr "u1")]).
  reflexivity.
Defined.

(** X9. Without that discipline [closeSocket] can leave a transport
    behind: whenever [initSocket] runs while the held socket is not
    connected but not disconnected either, the instance it replaces stays
    live after [closeSocket], which only disconnects the newer one. *)
Theorem closeSocket_leaks_replaced_transport
    (userId : value) (i : nat) (s : Socket.instance) (st : Socket.state) :
  Socket.socket st = Some i →
  Socket.instances st !! i = Some s →
  Socket.active s = true →
  Socket.connected s = false →
  Socket.instances (Socket.closeSocket (Socket.initSocket userId st).2) !! i = Some s
  ∧ (1 ≤ Socket.live (Socket.closeSocket (Socket.initSocket userId st).2))%nat.
Proof.
  intros Hs Hi Ha Hc.
  assert (Socket.socket_connected st = false) as Hsc.
  { unfold Socket.socket_connected, Socket.current. rewrite Hs. simpl. by rewrite Hi. }
  pose proof (lookup_lt_Some _ _ _ Hi) as Hlt.
  assert (Socket.instances (Socket.closeSocket (Socket.initSocket userId st).2) !! i
          = Some s) as Hkept.
  { unfold Socket.initSocket. rewrite Hs, Hsc. simpl. unfold Socket.closeSocket. simpl.
    assert (length (Socket.instances st) ≠ i) as Hne by lia.
    rewrite (list_lookup_alter_ne _ _ _ _ Hne). by rewrite lookup_app_l. }
  split; [done|]. by apply (live_some _ i s).
Qed.

Lemma closeSocket_leaks_replaced_transport_witness :
  let st := (Socket.initSocket (VStr "u1") Socket.initial).2 in
  (1 ≤ Socket.live (Socket.closeSocket (Socket.initSocket (VStr "u1") st).2))%nat.
Proof.
  intros st.
  exact (proj2 (closeSocket_leaks_replaced_transport (VStr "u1") 0
                  (Socket.Instance false true (VStr "u1") [] []) st
                  eq_refl eq_refl eq_refl eq_refl)).
Defined.

Section socket_listeners.

Import Socket.
Implicit Types (st : state) (s : instance) (i j : nat).

Lemma on_socket name cb st : socket (on name cb st) = socket st.
Proof. unfold on. by destruct (socket st) eqn:Hs. Qed.

Lemma socket_connected_on name cb st :
  socket_connected (on name cb st) = socket_connected st.
Proof.
  unfold socket_connected, current, on. destruct (socket st) as [i|] eqn:Hs; simpl.
  - rewrite list_lookup_alter_eq. by destruct (instances st !! i).
  - by rewrite Hs.
Qed.

Lemma current_on name cb st s :
  current st = Some s → current (on name cb st) = Some (push_listener name cb s).
Proof.
  unfold current, on. destruct (socket st) as [i|] eqn:Hs; [|done]. simpl.
  intros Hi. by rewrite list_lookup_alter_eq, Hi.
Qed.

Lemma mount_state cbU cbC cbD st :
  (UseTasksEffect.mount cbU cbC cbD st).2
  = on "task-deleted" cbD (on "task-created" cbC (on "task-updated" cbU st)).
Proof. done. Qed.

Lemma initSocket_fresh u st :
  socket_connected st = false →
  current (initSocket u st).2 = Some (Instance false true u [] []).
Proof.
  intros Hc. unfold initSocket. rewrite Hc.
  assert (current (State (instances st ++ [Instance false true u [] []])
                         (Some (length (instances st))))
          = Some (Instance false true u [] [])) as Hcur.
  { unfold current. simpl. rewrite lookup_app_r by lia. by rewrite Nat.sub_diag. }
  by destruct (socket st).
Qed.

End socket_listeners.

(** X10. Listeners do not survive a new socket.  When the [useTasks]
    effect has run and [initSocket] then finds the held socket not
    connected (or none held), the socket the module holds afterwards has no
    listener at all; and when no socket was held the effect had registered
    nothing in the first place. *)
Theorem listeners_lost_on_new_socket
    (userId : value) (cbU cbC cbD : nat) (st : Socket.state) :
  Socket.socket_connected st = false →
  option_map Socket.listeners
    (Socket.current
       (Socket.initSocket userId (UseTasksEffect.mount cbU cbC cbD st).2).2)
  = Some []
  ∧ (Socket.socket st = None → (UseTasksEffect.mount cbU cbC cbD st).2 = st).
Proof.
  intros Hc. split.
  - rewrite initSocket_fresh; [done|].
    by rewrite mount_state, !socket_connected_on.
  - intros Hs. rewrite mount_state.
    assert (∀ name cb, Socket.on name cb st = st) as Hon
      by (intros; unfold Socket.on; by rewrite Hs).
    by rewrite !Hon.
Qed.

(** The dashboard on a fresh page: the effect runs before [checkAuth] has
    opened the socket. *)
Lemma listeners_lost_on_new_socket_witness :
  option_map Socket.listeners
    (Socket.current
       (Socket.initSocket (VStr "u1") (UseTasksEffect.mount 1 2 3 Socket.initial).2).2)
  = Some [].
Proof.
  exact (proj1 (listeners_lost_on_new_socket (VStr "u1") 1 2 3 Socket.initial eq_refl)).
Defined.

(** X11. On a held socket the effect adds its three listeners after those
    already there, and since its cleanup removes none, running the effect
    again adds them a second time. *)
Theorem remount_duplicates_listeners
    (cbU cbC cbD : nat) (s : Socket.instance) (st : Socket.state) :
  Socket.current st = Some s →
  let three := [("task-updated"%string, cbU); ("task-created"%string, cbC);
                ("task-deleted"%string, cbD)] in
  let m1 := UseTasksEffect.mount cbU cbC cbD st in
  let m2 := UseTasksEffect.mount cbU cbC cbD (m1.1 m1.2) in
  option_map Socket.listeners (Socket.current m1.2) = Some (Socket.listeners s ++ three)
  ∧ option_map Socket.listeners (Socket.current (m2.1 m2.2))
    = Some (Socket.listeners s ++ three ++ three).
Proof.
  intros Hcur three m1 m2.
  assert (∀ st' s', Socket.current st' = Some s' →
            Socket.current (UseTasksEffect.mount cbU cbC cbD st').2
            = Some (Socket.push_listener "task-deleted" cbD
                      (Socket.push_listener "task-created" cbC
                         (Socket.push_listener "task-updated" cbU s')))) as Hm.
  { intros st' s' H. rewrite mount_state. by do 3 apply current_on. }
  split.
  - subst m1. rewrite (Hm st s Hcur). simpl. by rewrite <- !app_assoc.
  - subst m2 m1. change ((UseTasksEffect.mount cbU cbC cbD ?x).1 ?y) with y.
    erewrite Hm; [|by apply Hm]. simpl. by rewrite <- !app_assoc.
Qed.

Lemma remount_duplicates_listeners_witness :
  let m1 := UseTasksEffect.mount 1 2 3 EditExample.open_socket in
  let m2 := UseTasksEffect.mount 1 2 3 (m1.1 m1.2) in
  option_map Socket.listeners (Socket.current (m2.1 m2.2))
  = Some [("task-updated"%string, 1%nat); ("task-created"%string, 2%nat);
          ("task-deleted"%string, 3%nat); ("task-updated"%string, 1%nat);
          ("task-created"%string, 2%nat); ("task-deleted"%string, 3%nat)].
Proof.
  intros m1 m2.
  exact (proj2 (remount_duplicates_listeners 1 2 3
                  (Socket.Instance true true (VStr "u1") [] [Socket.UserJoin (VStr "u1")])
                  EditExample.open_socket eq_refl)).
Defined.

(** X12. When a replaced instance connects, its ['connect'] listener emits
    on the socket the module holds now: the newer socket is sent
    [user-join] with the userId of the older one, and nothing is announced
    on the instance that has just connected. *)
Theorem replaced_instance_announces_on_held_socket
    (i j : nat) (s : Socket.instance) (st : Socket.state) :
  Socket.socket st = Some j →
  i ≠ j →
  Socket.instances st !! i = Some s →
  Socket.active s = true →
  Socket.connected s = false →
  is_Some (Socket.instances st !! j) →
  Socket.sent_by j (Socket.transport_connect i st)
  = Socket.sent_by j st ++ [Socket.UserJoin (Socket.announce s)]
  ∧ Socket.sent_by i (Socket.transport_connect i st) = Socket.sent_by i st.
Proof.
  intros Hs Hne Hi Ha Hc [sj Hj].
  unfold Socket.transport_connect. rewrite Hi, Ha, Hc. simpl.
  unfold Socket.emit, Socket.sent_by. rewrite Hs. simpl. split.
  - rewrite list_lookup_alter_eq, list_lookup_alter_ne by done. by rewrite Hj.
  - rewrite list_lookup_alter_ne by done. by rewrite list_lookup_alter_eq, Hi.
Qed.

Lemma replaced_instance_announces_on_held_socket_witness :
  let st := Socket.run [Socket.OpInit (VStr "u1"); Socket.OpInit (VStr "u2")]
                       Socket.initial in
  Socket.sent_by 1 (Socket.transport_connect 0 st) = [Socket.UserJoin (VStr "u1")]
  ∧ Socket.sent_by 0 (Socket.transport_connect 0 st) = [].
Proof.
  intros st.
  apply (replaced_instance_announces_on_held_socket 0 1
           (Socket.Instance false true (VStr "u1") [] []) st);
    try reflexivity; [lia | by eexists].
Defined.

(** ** What the handlers of [TaskItem] do *)

Ltac run_handler :=
  unfold final, fulfils, try_catch_finally, request_write,
    emitTaskUpdated, emitTaskCreated, emitTaskDeleted, emitTaskAssigned, call_emit,
    call_prop, setState, await, modify, TaskForm.throw_plain;
  unfold mbind, M_bind, mret, M_ret.

(** X13. Choosing the status or the priority the task already has does
    nothing at all: no request, no emit, no callback, and the busy flag is
    not touched. *)
Theorem same_value_changes_nothing
    (api : taskAPI) (p : TaskItem.props) (w : world TaskItem.item) :
  TaskItem.handleStatusChange api p (get (TaskItem.task_ p) "status") w = (inr (), w)
  ∧ TaskItem.handlePriorityChange api p (get (TaskItem.task_ p) "priority") w
    = (inr (), w).
Proof.
  unfold TaskItem.handleStatusChange, TaskItem.handlePriorityChange.
  by rewrite !strict_eq_refl.
Qed.

(** X14. A change of status sends a PUT that carries the [status] field
    only.  When it is rejected nothing else happens; when it fulfils,
    [task-updated] is emitted with the task the store answered and the
    callback, if passed, is called.  Either way the busy flag ends cleared
    and the other flags are as they were.  The same holds for a change of
    priority, with the [priority] field. *)
Theorem update_handlers_outcome
    (api : taskAPI) (p : TaskItem.props) (v : value) (w : world TaskItem.item) :
  let id := get (TaskItem.task_ p) "id" in
  let outcome (field : string) (w' : world TaskItem.item) : Prop :=
    ui w' = TaskItem.Item false (TaskItem.isDeleting (ui w))
                          (TaskItem.showDeleteConfirm (ui w))
    ∧ match updateTask api id {[ field := v ]} with
      | inl _ =>
          calls w' = calls w ++ [CallAPI (PutTask id {[ field := v ]}) false]
          ∧ chan w' = chan w
      | inr r =>
          calls w' = calls w
                     ++ [CallAPI (PutTask id {[ field := v ]}) true;
                         CallEmit (Socket.TaskUpdated (data_data r))]
                     ++ (if TaskItem.onTaskUpdated p
                         then [CallProp "onTaskUpdated"] else [])
          ∧ chan w' = Socket.emitTaskUpdated (data_data r) (chan w)
      end in
  (v ≠ get (TaskItem.task_ p) "status" →
   outcome "status"%string (final (TaskItem.handleStatusChange api p v) w))
  ∧ (v ≠ get (TaskItem.task_ p) "priority" →
     outcome "priority"%string (final (TaskItem.handlePriorityChange api p v) w)).
Proof.
  intros id outcome. subst outcome id. split; intros Hne; apply strict_eq_false in Hne.
  - unfold TaskItem.handleStatusChange. rewrite Hne. run_handler.
    destruct (updateTask api _ _) as [e|r]; cbn; [by rewrite <- ?app_assoc|].
    destruct (TaskItem.onTaskUpdated p); cbn; by rewrite <- ?app_assoc.
  - unfold TaskItem.handlePriorityChange. rewrite Hne. run_handler.
    destruct (updateTask api _ _) as [e|r]; cbn; [by rewrite <- ?app_assoc|].
    destruct (TaskItem.onTaskUpdated p); cbn; by rewrite <- ?app_assoc.
Qed.

(** X15. A delete that is rejected leaves the confirmation open exactly as
    it was and calls no callback; a delete that fulfils emits
    [task-deleted] with the task's id, closes the confirmation and calls the
    callback if passed.  In both cases the deleting flag ends cleared. *)
Theorem handleDelete_outcome
    (api : taskAPI) (p : TaskItem.props) (w : world TaskItem.item) :
  let id := get (TaskItem.task_ p) "id" in
  let w' := final (TaskItem.handleDelete api p) w in
  fulfils (TaskItem.handleDelete api p) w = true
  ∧ match deleteTask api id with
    | inl _ =>
        ui w' = TaskItem.Item (TaskItem.isUpdating (ui w)) false
                              (TaskItem.showDeleteConfirm (ui w))
        ∧ calls w' = calls w ++ [CallAPI (DeleteTask id) false]
        ∧ chan w' = chan w
    | inr _ =>
        ui w' = TaskItem.Item (TaskItem.isUpdating (ui w)) false false
        ∧ calls w' = calls w
                     ++ [CallAPI (DeleteTask id) true; CallEmit (Socket.TaskDeleted id)]
                     ++ (if TaskItem.onTaskDeleted p
                         then [CallProp "onTaskDeleted"] else [])
        ∧ chan w' = Socket.emitTaskDeleted id (chan w)
    end.
Proof.
  intros id w'. subst w' id. unfold TaskItem.handleDelete. run_handler.
  destruct (deleteTask api _) as [e|r]; cbn; [by rewrite <- ?app_assoc|].
  destruct (TaskItem.onTaskDeleted p); cbn; by rewrite <- ?app_assoc.
Qed.

(** ** What the submit of [TaskForm] does *)

(** X16. When the schema rejects the form's fields, the submit sends
    nothing: no request, no emit, no callback; the form is not reset, its
    error reads "Validation failed", and the loading flag ends cleared. *)
Theorem onSubmit_validation_failure
    (X : TaskForm.externals) (api : taskAPI) (p : TaskForm.props) (d : task)
    (w : world TaskForm.form) :
  TaskForm.taskSchema_parse X (Submit.schema_input X d) = None →
  TaskForm.onSubmit X api p d w
  = (inr (), World (TaskForm.Form false (VStr "Validation failed")
                                  (TaskForm.resets (ui w)))
                   (chan w) (calls w)).
Proof.
  intros Hp. unfold TaskForm.onSubmit. fold (Submit.schema_input X d).
  unfold TaskForm.validate. rewrite Hp. by run_handler.
Qed.

(** The form as it opens, left on "Unassigned", under a schema that wants
    a non-empty [assignedToId]. *)
Lemma onSubmit_validation_failure_witness :
  let X := TaskForm.Externals
             (λ d, if truthy (get d "assignedToId") then Some d else None)
             (λ v, v) (λ v, Some v) in
  let d : task := {[ "title" := VStr "Ship release"; "assignedToId" := VStr "";
                     "dueDate" := VStr "" ]} in
  calls (final (TaskForm.onSubmit X EditExample.api (TaskForm.Props None true) d)
               EditExample.before) = [].
Proof.
  intros X d.
  pose proof (onSubmit_validation_failure X EditExample.api (TaskForm.Props None true) d
                EditExample.before eq_refl) as H.
  unfold final. by rewrite H.
Defined.

(** X17. When the fields are valid but the write is rejected, the form
    shows the server's message, or "Failed to save task" when there is
    none; it is not reset, the callback is not called, nothing is emitted,
    and the loading flag ends cleared. *)
Theorem onSubmit_write_failure
    (X : TaskForm.externals) (api : taskAPI) (p : TaskForm.props) (d : task)
    (w : world TaskForm.form) (validated : task) (dueDate : value) (err : rejection) :
  TaskForm.taskSchema_parse X (Submit.schema_input X d) = Some validated →
  Submit.dueDate_sent X d = Some dueDate →
  let submitData := Submit.submitData X d dueDate in
  let req := match TaskForm.initialData p with
             | Some initial => PutTask (get initial "id") submitData
             | None => PostTask submitData
             end in
  match TaskForm.initialData p with
  | Some initial => updateTask api (get initial "id") submitData
  | None => createTask api submitData
  end = inl err →
  TaskForm.onSubmit X api p d w
  = (inr (), World (TaskForm.Form false
                      (or_else (err_message err) (VStr "Failed to save task"))
                      (TaskForm.resets (ui w)))
                   (chan w) (calls w ++ [CallAPI req false])).
Proof.
  intros Hp Hd submitData req Hw. subst req submitData.
  unfold Submit.submitData, Submit.dueDate_sent in *.
  unfold TaskForm.onSubmit. fold (Submit.schema_input X d) in *.
  unfold TaskForm.validate in *. rewrite Hp in *. run_handler. cbn in *.
  destruct (truthy (get d "dueDate")).
  - rewrite Hd. cbn. destruct (TaskForm.initialData p); rewrite Hw; reflexivity.
  - injection Hd as <-. destruct (TaskForm.initialData p); rewrite Hw; reflexivity.
Qed.

Lemma onSubmit_write_failure_witness :
  let X := EditExample.X in
  let d := EditExample.fields in
  TaskForm.error
    (ui (final (TaskForm.onSubmit X EditExample.api (TaskForm.Props None false) d)
               EditExample.before))
  = VStr "Failed to save task".
Proof.
  intros X d.
  pose proof (onSubmit_write_failure X EditExample.api (TaskForm.Props None false) d
                EditExample.before _ VNull (Rejection None) eq_refl eq_refl eq_refl) as H.
  unfold final. by rewrite H.
Defined.

(** X18. A create whose fields are valid and whose POST fulfils: the POST
    carries the validated fields with [dueDate] set to the ISO string, or
    to [null] when the form had none; [task-created] follows with the task
    the store answered; [task-assigned] follows exactly when the fields
    have a truthy [assignedToId], with the created task's id; then the form
    is reset and the callback, if passed, is called. *)
Theorem onSubmit_create_success
    (X : TaskForm.externals) (api : taskAPI) (p : TaskForm.props) (d : task)
    (w : world TaskForm.form) (validated : task) (dueDate : value)
    (r : response task) :
  TaskForm.initialData p = None →
  TaskForm.taskSchema_parse X (Submit.schema_input X d) = Some validated →
  Submit.dueDate_sent X d = Some dueDate →
  let submitData := Submit.submitData X d dueDate in
  createTask api submitData = inr r →
  submitData = spread2 validated {[ "dueDate" := dueDate ]}
  ∧ get submitData "dueDate" = dueDate
  ∧ fulfils (TaskForm.onSubmit X api p d) w = true
  ∧ ui (final (TaskForm.onSubmit X api p d) w)
    = TaskForm.Form false (VStr "") (S (TaskForm.resets (ui w)))
  ∧ calls (final (TaskForm.onSubmit X api p d) w)
    = calls w
      ++ [CallAPI (PostTask submitData) true;
          CallEmit (Socket.TaskCreated (data_data r))]
      ++ (if truthy (get submitData "assignedToId")
          then [CallEmit (Socket.TaskAssigned
                            (get submitData "assignedToId")
                            (get submitData "title")
                            (match data_data r with
                             | Some created => get created "id"
                             | None => VUndefined
                             end))]
          else [])
      ++ (if TaskForm.onTaskCreated p then [CallProp "onTaskCreated"] else []).
Proof.
  intros Hi Hp Hd submitData Hw. subst submitData.
  unfold Submit.submitData, Submit.dueDate_sent in *.
  unfold TaskForm.onSubmit. fold (Submit.schema_input X d) in *.
  unfold TaskForm.validate in *. rewrite Hp in *.
  cbn [TaskForm.data default from_option] in *. unfold id in *.
  split; [done|]. split.
  { unfold get, spread2. rewrite lookup_union, lookup_singleton_eq.
    by destruct (validated !! "dueDate"). }
  run_handler. cbn.
  destruct (truthy (get d "dueDate")).
  - rewrite Hd, Hi. cbn. rewrite Hw. cbn.
    destruct (truthy (get _ "assignedToId")); destruct (TaskForm.onTaskCreated p);
      cbn; by rewrite <- ?app_assoc.
  - injection Hd as <-. rewrite Hi. cbn. rewrite Hw. cbn.
    destruct (truthy (get _ "assignedToId")); destruct (TaskForm.onTaskCreated p);
      cbn; by rewrite <- ?app_assoc.
Qed.

Lemma onSubmit_create_success_witness :
  let d : task := Samples.draft in
  calls (final (TaskForm.onSubmit EditExample.X Samples.api_ok
                  (TaskForm.Props None true) d) EditExample.before)
  = [ CallAPI (PostTask (Submit.submitData EditExample.X d VNull)) true;
      CallEmit (Socket.TaskCreated (Some Samples.created));
      CallEmit (Socket.TaskAssigned (VStr "3f2b8c1e-7a4d-4e9b-9c55-0d1a2b3c4d5e")
                                    (VStr "Ship release") (VStr "t9"));
      CallProp "onTaskCreated" ].
Proof.
  intros d.
  destruct (onSubmit_create_success EditExample.X Samples.api_ok
              (TaskForm.Props None true) d EditExample.before _ VNull _
              eq_refl eq_refl eq_refl eq_refl) as (_ & _ & _ & _ & Hcalls).
  exact Hcalls.
Defined.

(** ** Badge colours *)

Section colours.

Import Literal Colors.
Variable E : engine.

Lemma statusColors_truthy k v : statusColors !! k = Some v → truthy v = true.
Proof.
  unfold statusColors. intros H.
  repeat (apply lookup_insert_Some in H as [[_ <-]|[_ H]]; [done|]).
  by apply lookup_singleton_Some in H as [_ <-].
Qed.

Lemma priorityColors_truthy k v : priorityColors !! k = Some v → truthy v = true.
Proof.
  unfold priorityColors. intros H.
  repeat (apply lookup_insert_Some in H as [[_ <-]|[_ H]]; [done|]).
  by apply lookup_singleton_Some in H as [_ <-].
Qed.

Lemma inherited_cases k :
  is_inherited k = true → In k inherited.
Proof.
  unfold is_inherited. rewrite existsb_exists. intros (x & Hin & Heq).
  apply String.eqb_eq in Heq. by subst x.
Qed.

Lemma inherited_not_a_colour k :
  is_inherited k = true → statusColors !! k = None ∧ priorityColors !! k = None.
Proof.
  intros H. apply inherited_cases in H. simpl in H.
  repeat (destruct H as [<-|H]; [by vm_compute|]). destruct H.
Qed.

End colours.

(** X19. For a status (or priority) whose key is not a name inherited from
    [Object.prototype], the badge colour is the class string listed for it,
    and the one of ['To Do'] (of [Medium]) when it is not listed: always a
    non-empty string.  For an inherited name such as ["constructor"] the
    result is the inherited object, not a class string. *)
Theorem badge_colour_fallback (E : Literal.engine) (v : value) :
  let k := Literal.property_key E v in
  (Literal.is_inherited k = false →
   Colors.getStatusColor E v
   = default (VStr "bg-gray-100 text-gray-800 border-gray-300")
             (Colors.statusColors !! k)
   ∧ Colors.getPriorityColor E v
     = default (VStr "bg-blue-100 text-blue-800 border-blue-300")
               (Colors.priorityColors !! k)
   ∧ (∃ c, Colors.getStatusColor E v = VStr c ∧ c ≠ ""%string)
   ∧ (∃ c, Colors.getPriorityColor E v = VStr c ∧ c ≠ ""%string))
  ∧ (Literal.is_inherited k = true →
     Colors.getStatusColor E v = VRef (Literal.proto_member E k)
     ∧ Colors.getPriorityColor E v = VRef (Literal.proto_member E k)).
Proof.
  intros k. split.
  - intros Hk.
    assert (Colors.getStatusColor E v
            = default (VStr "bg-gray-100 text-gray-800 border-gray-300")
                      (Colors.statusColors !! k)) as Hs.
    { unfold Colors.getStatusColor, Literal.read, or_else. fold k. rewrite Hk.
      destruct (Colors.statusColors !! k) as [c|] eqn:Hc; [|done].
      by rewrite (statusColors_truthy k c Hc). }
    assert (Colors.getPriorityColor E v
            = default (VStr "bg-blue-100 text-blue-800 border-blue-300")
                      (Colors.priorityColors !! k)) as Hp.
    { unfold Colors.getPriorityColor, Literal.read, or_else. fold k. rewrite Hk.
      destruct (Colors.priorityColors !! k) as [c|] eqn:Hc; [|done].
      by rewrite (priorityColors_truthy k c Hc). }
    split; [done|]. split; [done|]. rewrite Hs, Hp. split.
    + destruct (Colors.statusColors !! k) as [c|] eqn:Hc; [|by eexists].
      pose proof (statusColors_truthy k c Hc) as Ht. unfold Colors.statusColors in Hc.
      repeat (apply lookup_insert_Some in Hc as [[_ <-]|[_ Hc]]; [by eexists|]).
      apply lookup_singleton_Some in Hc as [_ <-]. by eexists.
    + destruct (Colors.priorityColors !! k) as [c|] eqn:Hc; [|by eexists].
      unfold Colors.priorityColors in Hc.
      repeat (apply lookup_insert_Some in Hc as [[_ <-]|[_ Hc]]; [by eexists|]).
      apply lookup_singleton_Some in Hc as [_ <-]. by eexists.
  - intros Hk. destruct (inherited_not_a_colour k Hk) as [Hs Hp].
    unfold Colors.getStatusColor, Colors.getPriorityColor, Literal.read, or_else.
    fold k. by rewrite Hs, Hp, Hk.
Qed.

Lemma badge_colour_fallback_witness :
  Colors.getStatusColor Samples.E (VStr "Archived")
  = VStr "bg-gray-100 text-gray-800 border-gray-300"
  ∧ Colors.getPriorityColor Samples.E (VStr "constructor") = VRef 1.
Proof.
  split.
  - exact (proj1 (proj1 (badge_colour_fallback Samples.E (VStr "Archived")) eq_refl)).
  - exact (proj2 (proj2 (badge_colour_fallback Samples.E (VStr "constructor")) eq_refl)).
Defined.

(** ** Grouping and rendering the list *)

Section grouping.

Import Literal TaskList.
Variable E : engine.
Implicit Types (g : gmap string (list task)) (t : task) (ts : list task) (k s : string).

Local Abbreviation key t := (property_key E (get t "status")).
Local Abbreviation F := (λ (acc : option (gmap string (list task))) t,
                           acc ≫= λ groups, place E groups t).
Local Abbreviation bucket k ts := (List.filter (λ t, String.eqb (key t) k) ts).

(** The own names of [g] are not inherited ones. *)
Local Abbreviation own_plain g := (∀ k, is_Some (g !! k) → is_inherited k = false).

Lemma foldl_thrown ts : foldl F None ts = None.
Proof. by induction ts. Qed.

Lemma groups0_lookup s :
  groups0 !! s = if bool_decide (s ∈ statusOrder) then Some [] else None.
Proof.
  unfold groups0, statusOrder.
  destruct (decide (s = "To Do"%string)) as [->|H1]; [done|].
  destruct (decide (s = "In Progress"%string)) as [->|H2]; [done|].
  destruct (decide (s = "Review"%string)) as [->|H3]; [done|].
  destruct (decide (s = "Completed"%string)) as [->|H4]; [done|].
  rewrite !lookup_insert_ne, lookup_singleton_ne by done.
  rewrite bool_decide_eq_false_2; [done|].
  rewrite !elem_of_cons, elem_of_nil. tauto.
Qed.

Lemma groups0_plain : own_plain groups0.
Proof.
  intros k [l Hl]. rewrite groups0_lookup in Hl. case_bool_decide as Hin; [|done].
  unfold statusOrder in Hin. rewrite !elem_of_cons, elem_of_nil in Hin.
  destruct Hin as [->|[->|[->|[->|[]]]]]; reflexivity.
Qed.

Lemma place_lookup g t :
  is_inherited (key t) = false →
  ∃ g', place E g t = Some g'
        ∧ ∀ k, g' !! k = (λ l, l ++ bucket k [t]) <$> g !! k.
Proof.
  intros Hk. unfold place. destruct (g !! key t) as [l|] eqn:Hl.
  - eexists. split; [done|]. intros k. simpl.
    destruct (String.eqb_spec (key t) k) as [<-|Hne].
    + by rewrite lookup_insert_eq, Hl.
    + rewrite lookup_insert_ne by done. destruct (g !! k); simpl; [|done].
      by rewrite app_nil_r.
  - rewrite Hk. eexists. split; [done|]. intros k. simpl.
    destruct (String.eqb_spec (key t) k) as [<-|Hne].
    + by rewrite Hl.
    + destruct (g !! k); simpl; [|done]. by rewrite app_nil_r.
Qed.

Lemma foldl_place g ts :
  plain_statuses E ts →
  ∃ g', foldl F (Some g) ts = Some g'
        ∧ ∀ k, g' !! k = (λ l, l ++ bucket k ts) <$> g !! k.
Proof.
  intros Hts. revert g. induction Hts as [|t ts Ht _ IH]; intros g.
  - exists g. split; [done|]. intros k. destruct (g !! k); simpl; [|done].
    by rewrite app_nil_r.
  - destruct (place_lookup g t Ht) as (g1 & Hp & H1).
    destruct (IH g1) as (g' & Hf & H').
    exists g'. split; [simpl; by rewrite Hp|].
    intros k. rewrite H', H1. destruct (g !! k) as [l|]; simpl; [|done].
    f_equal. rewrite <- app_assoc. f_equal.
    by destruct (String.eqb (key t) k).
Qed.

Lemma place_keeps_own g g' t : place E g t = Some g' → own_plain g → own_plain g'.
Proof.
  unfold place. intros Hp Hown k [l Hl].
  destruct (g !! key t) as [l0|] eqn:Hk.
  - injection Hp as <-. destruct (decide (key t = k)) as [<-|Hne].
    + apply Hown. by rewrite Hk.
    + rewrite lookup_insert_ne in Hl by done. apply Hown. by rewrite Hl.
  - destruct (is_inherited (key t)); [done|]. injection Hp as <-.
    apply Hown. by rewrite Hl.
Qed.

Lemma foldl_throws g ts :
  own_plain g →
  Exists (λ t, is_inherited (key t) = true) ts →
  foldl F (Some g) ts = None.
Proof.
  intros Hown Hex. revert g Hown. induction Hex as [t ts Ht|t ts _ IH]; intros g Hown.
  - simpl. unfold place.
    destruct (g !! key t) as [l|] eqn:Hl.
    + assert (is_inherited (key t) = false) by (apply Hown; by rewrite Hl). congruence.
    + rewrite Ht. apply foldl_thrown.
  - simpl. destruct (place E g t) as [g1|] eqn:Hp; [|apply foldl_thrown].
    apply IH. by apply (place_keeps_own g g1 t).
Qed.

Lemma groupedTasks_plain ts :
  plain_statuses E ts →
  ∃ g, groupedTasks E ts = Some g
       ∧ ∀ s, g !! s = if bool_decide (s ∈ statusOrder)
                       then Some (bucket s ts) else None.
Proof.
  intros Hts. destruct (foldl_place groups0 ts Hts) as (g & Hf & Hg).
  exists g. split; [done|]. intros s. rewrite Hg, groups0_lookup.
  by case_bool_decide.
Qed.

(** One bucket per status, and the tasks of known status between them. *)
Lemma buckets_cover ts :
  (length (bucket "To Do" ts) + length (bucket "In Progress" ts)
   + length (bucket "Review" ts) + length (bucket "Completed" ts))%nat
  = length (List.filter (known_status E) ts).
Proof.
  induction ts as [|t ts IH]; [done|]. simpl. unfold known_status at 1.
  destruct (String.eqb_spec (key t) "To Do") as [->|H1].
  { simpl. lia. }
  destruct (String.eqb_spec (key t) "In Progress") as [->|H2].
  { simpl. lia. }
  destruct (String.eqb_spec (key t) "Review") as [->|H3].
  { simpl. lia. }
  destruct (String.eqb_spec (key t) "Completed") as [->|H4].
  { simpl. lia. }
  rewrite bool_decide_eq_false_2; [simpl; lia|].
  unfold statusOrder. rewrite !elem_of_cons, elem_of_nil. tauto.
Qed.

End grouping.

(** X20. When no task's status reads as a name inherited from
    [Object.prototype], the memo of [TaskList] gives exactly the four
    groups, each holding the tasks of its status in the order of the list;
    a task of any other status is in no group.  When some task's status is
    an inherited name, the memo throws. *)
Theorem groupedTasks_spec (E : Literal.engine) (ts : list task) :
  (TaskList.plain_statuses E ts →
   ∃ g, TaskList.groupedTasks E ts = Some g
        ∧ ∀ s, g !! s
               = if bool_decide (s ∈ TaskList.statusOrder)
                 then Some (List.filter
                              (λ t, String.eqb (Literal.property_key E (get t "status")) s)
                              ts)
                 else None)
  ∧ (Exists (λ t, Literal.is_inherited (Literal.property_key E (get t "status")) = true) ts →
     TaskList.groupedTasks E ts = None).
Proof.
  split.
  - apply groupedTasks_plain.
  - intros Hex. apply foldl_throws; [apply groups0_plain | done].
Qed.

Lemma groupedTasks_spec_witness :
  (∃ g, TaskList.groupedTasks Samples.E Samples.board = Some g
        ∧ g !! "To Do"%string
          = Some [ {[ "id" := VStr "b"; "status" := VStr "To Do" ]};
                   {[ "id" := VStr "d"; "status" := VStr "To Do" ]} ])
  ∧ TaskList.groupedTasks Samples.E
      [ {[ "id" := VStr "x"; "status" := VStr "toString" ]} ] = None.
Proof.
  split.
  - destruct (proj1 (groupedTasks_spec Samples.E Samples.board)) as (g & Hg & Hl).
    { repeat constructor. }
    exists g. split; [done|]. by rewrite Hl.
  - apply (proj2 (groupedTasks_spec Samples.E _)). by constructor.
Defined.

Lemma sections_of_buckets (E : Literal.engine) (ts : list task)
    (g : gmap string (list task)) :
  (∀ s, g !! s
        = if bool_decide (s ∈ TaskList.statusOrder)
          then Some (List.filter
                       (λ t, String.eqb (Literal.property_key E (get t "status")) s) ts)
          else None) →
  TaskList.sections_of g
  = omap (λ s, let l := List.filter
                          (λ t, String.eqb (Literal.property_key E (get t "status")) s) ts in
               if (length l =? 0)%nat then None else Some (s, l))
         TaskList.statusOrder.
Proof.
  intros Hg. unfold TaskList.sections_of, TaskList.statusOrder. simpl.
  by rewrite !Hg.
Qed.

(** Dropping the empty sections loses no task. *)
Lemma sections_length (f : string → list task) (L : list string) :
  length (concat (map snd
            (omap (λ s, if (length (f s) =? 0)%nat then None else Some (s, f s)) L)))
  = length (concat (map f L)).
Proof.
  induction L as [|s L IH]; [done|]. cbn.
  destruct (length (f s) =? 0)%nat eqn:Hlen; cbn; rewrite !length_app, IH; [|done].
  apply Nat.eqb_eq in Hlen. by rewrite Hlen.
Qed.

(** X21. With no inherited status name, not loading, no error and a
    non-empty list, [TaskList] draws one section per status that has tasks,
    in the fixed order of the four statuses; a section holds exactly the
    tasks of its status, in list order; and the tasks drawn are as many as
    the tasks whose status is one of the four, so a task of another status
    is drawn nowhere. *)
Theorem render_sections (E : Literal.engine) (p : TaskList.props) :
  TaskList.plain_statuses E (TaskList.tasks p) →
  TaskList.isLoading p = false →
  truthy (TaskList.error p) = false →
  TaskList.tasks p ≠ [] →
  let bucket s := List.filter
                    (λ t, String.eqb (Literal.property_key E (get t "status")) s)
                    (TaskList.tasks p) in
  ∃ secs,
    TaskList.render E p = Some (TaskList.Sections secs)
    ∧ secs = omap (λ s, if (length (bucket s) =? 0)%nat then None else Some (s, bucket s))
                  TaskList.statusOrder
    ∧ (∀ s l, (s, l) ∈ secs ↔ s ∈ TaskList.statusOrder ∧ l = bucket s ∧ l ≠ [])
    ∧ length (concat (map snd secs))
      = length (List.filter (TaskList.known_status E) (TaskList.tasks p)).
Proof.
  intros Hplain Hload Herr Hne bucket.
  destruct (groupedTasks_plain E _ Hplain) as (g & Hg & Hl).
  pose proof (sections_of_buckets E _ g Hl) as Hsec. fold bucket in Hsec.
  exists (TaskList.sections_of g). split; [|split; [done|split]].
  - unfold TaskList.render. rewrite Hg. simpl. rewrite Hload, Herr.
    destruct (TaskList.tasks p); [done|]. reflexivity.
  - intros s l. rewrite Hsec, list_elem_of_omap. split.
    + intros (s' & Hin & Hf). cbv beta zeta in Hf. fold (bucket s') in Hf.
      destruct (length (bucket s') =? 0)%nat eqn:Hlen; [done|].
      injection Hf as <- <-. split; [done|]. split; [done|].
      intros Hnil. rewrite Hnil in Hlen. discriminate.
    + intros (Hin & -> & Hnil). exists s. split; [done|]. cbv beta zeta.
      fold (bucket s). destruct (bucket s) eqn:Hb; [done|]. reflexivity.
  - rewrite Hsec. cbv zeta. rewrite (sections_length bucket).
    rewrite <- (buckets_cover E). unfold TaskList.statusOrder. simpl.
    rewrite !length_app. simpl. subst bucket. cbv beta. lia.
Qed.

Lemma render_sections_witness :
  TaskList.render Samples.E (TaskList.Props Samples.board false VNull true)
  = Some (TaskList.Sections
            [ ("To Do"%string,
               [ {[ "id" := VStr "b"; "status" := VStr "To Do" ]};
                 {[ "id" := VStr "d"; "status" := VStr "To Do" ]} ]);
              ("Review"%string, [ {[ "id" := VStr "a"; "status" := VStr "Review" ]} ]) ]).
Proof.
  destruct (render_sections Samples.E (TaskList.Props Samples.board false VNull true))
    as (secs & Hr & -> & _); [repeat constructor | done | done | done |].
  exact Hr.
Defined.

(** X22. After a load that failed, and provided no task the hook still
    holds has a status that reads as a name inherited from
    [Object.prototype], the list shows the error panel with the message the
    hook surfaced, and none of the held tasks; it offers "Try Again" when a
    refresh callback was passed.  When some held task has such a status,
    the render throws in the grouping memo, before the error branch. *)
Theorem failed_load_shows_error_panel
    (E : Literal.engine) (api : taskAPI) (o : UseTasks.options) (h : UseTasks.hook)
    (err : rejection) (onRefresh : bool) :
  UseTasks.selected api o = inl err →
  let h' := final (UseTasks.getTasksData api o) h in
  let rendered :=
    TaskList.render E (TaskList.Props (UseTasks.tasks h') (UseTasks.isLoading h')
                                      (UseTasks.error h') onRefresh) in
  (TaskList.plain_statuses E (UseTasks.tasks h) →
   rendered
   = Some (TaskList.ErrorPanel
             (or_else (err_message err) (VStr "Failed to fetch tasks")) onRefresh))
  ∧ (Exists (λ t, Literal.is_inherited (Literal.property_key E (get t "status")) = true)
            (UseTasks.tasks h) →
     rendered = None).
Proof.
  intros Hsel h' rendered. subst rendered.
  assert (h' = UseTasks.Hook (UseTasks.tasks h) false
                 (or_else (err_message err) (VStr "Failed to fetch tasks"))
                 (if strict_eq (err_status err) (VNum 401)
                  then UseTasks.pushed h ++ ["/login"%string] else UseTasks.pushed h))
    as ->.
  { subst h'. unfold final, UseTasks.getTasksData, try_catch_finally, await, modify.
    unfold mbind, M_bind, mret, M_ret. rewrite Hsel. cbn.
    by destruct (strict_eq (err_status err) (VNum 401)). }
  split.
  - intros Hplain. destruct (groupedTasks_plain E _ Hplain) as (g & Hg & _).
    unfold TaskList.render. simpl. rewrite Hg. simpl.
    by rewrite (or_else_truthy (err_message err) (VStr "Failed to fetch tasks")).
  - intros Hex. unfold TaskList.render. simpl.
    assert (TaskList.groupedTasks E (UseTasks.tasks h) = None) as ->; [|done].
    apply foldl_throws; [apply groups0_plain | done].
Qed.

Lemma failed_load_shows_error_panel_witness :
  let gone : rejection := Rejection (Some (Response 500 None)) in
  let api := TaskAPI (λ _ _ _, inl gone) (inl gone) (inl gone) (inl gone)
                     (λ _, inl gone) (λ _ _, inl gone) (λ _, inl gone) in
  let o := UseTasks.Options "all" VUndefined VUndefined (VStr "dueDate") in
  let h' := final (UseTasks.getTasksData api o)
                  (UseTasks.Hook Samples.board false VNull []) in
  TaskList.render Samples.E
    (TaskList.Props (UseTasks.tasks h') (UseTasks.isLoading h') (UseTasks.error h') true)
  = Some (TaskList.ErrorPanel (VStr "Failed to fetch tasks") true).
Proof.
  intros gone api o h'.
  apply (failed_load_shows_error_panel Samples.E api o
           (UseTasks.Hook Samples.board false VNull []) gone true eq_refl).
  repeat constructor.
Defined.

(** ** The dashboard's counts and form *)

Lemma filter_length_bound {A} (P : A → bool) (l : list A) :
  (length (List.filter P l) ≤ length l)%nat.
Proof.
  induction l as [|x l IH]; [done|]. simpl. destruct (P x); simpl; lia.
Qed.

Lemma filter_imap_snd {A} (P : A → bool) (f : nat → A → nat * A) (l : list A) :
  (∀ k x, (f k x).2 = x) →
  length (List.filter (λ kx, P kx.2) (imap f l)) = length (List.filter P l).
Proof.
  revert f. induction l as [|x l IH]; intros f Hf; [done|]. simpl.
  rewrite Hf. destruct (P x); simpl; rewrite IH; try done; intros k y; apply Hf.
Qed.

Lemma completed_not_counted (D : TaskItem.dates) (now : Z) (t : task) :
  get t "status" = VStr "Completed" →
  truthy (Home.assigned_open t) = false ∧ truthy (Home.overdue_now D now t) = false.
Proof.
  intros Hs. unfold Home.assigned_open, Home.overdue_now, and_then, strict_ne.
  rewrite Hs, strict_eq_refl. simpl. split.
  - by destruct (truthy (get t "assignedTo")) eqn:Ha.
  - destruct (truthy (get t "dueDate")) eqn:Hd; simpl.
    + by destruct (TaskItem.date_lt _ _).
    + by rewrite !Hd.
Qed.

(** X23. The counts of the dashboard's sidebar: [all] and [created] are
    both the length of the list in view; [assigned] and [overdue] never
    exceed it; when the clock does not move during the render, [overdue] is
    the number of tasks that [TaskItem] marks overdue; and a list of
    completed tasks counts zero for both. *)
Theorem filterCount_spec (D : TaskItem.dates) (clock : nat → Z) (ts : list task) :
  let c := Home.filterCount D clock ts in
  Home.all c = length ts
  ∧ Home.created c = length ts
  ∧ (Home.assigned c ≤ length ts)%nat
  ∧ (Home.overdue c ≤ length ts)%nat
  ∧ (∀ now, (∀ k, clock k = now) →
       Home.overdue c
       = length (List.filter (λ t, truthy (TaskItem.isOverdue D now t)) ts))
  ∧ (Forall (λ t, get t "status" = VStr "Completed") ts →
     Home.assigned c = 0%nat ∧ Home.overdue c = 0%nat).
Proof.
  intros c. subst c. unfold Home.filterCount. simpl.
  split; [done|]. split; [done|]. split; [apply filter_length_bound|].
  split; [|split].
  - etrans; [apply filter_length_bound|]. by rewrite length_imap.
  - intros now Hclock.
    rewrite <- (filter_imap_snd (λ t, truthy (TaskItem.isOverdue D now t)) pair ts)
      by done.
    f_equal. apply filter_ext. intros [k t]. simpl. by rewrite Hclock.
  - intros Hall. split.
    + induction Hall as [|t ts' Ht _ IH]; [done|]. simpl.
      by rewrite (proj1 (completed_not_counted D 0 t Ht)).
    + assert (∀ f : nat → task → nat * task, (∀ k x, (f k x).2 = x) →
                length (List.filter
                          (λ kt, truthy (Home.overdue_now D (clock kt.1) kt.2))
                          (imap f ts)) = 0%nat) as H; [|by apply H].
      induction Hall as [|t ts' Ht _ IH]; intros f Hf; [done|]. simpl.
      rewrite Hf, (proj2 (completed_not_counted D _ t Ht)). apply IH.
      intros k x. apply Hf.
Qed.

(** X24. Closing the form with the [+ New Task] button keeps the task that
    was being edited: opening it again with that button gives the form that
    task as [initialData], so a submit would update it.  After Cancel, or
    after a submit that completed, the button opens an empty form. *)
Theorem new_task_button_keeps_edited_task (t : task) (h : Home.home) :
  Home.form_initialData (Home.toggleForm (Home.toggleForm (Home.handleEditTask t h)))
  = Some (Some t)
  ∧ Home.form_initialData (Home.toggleForm (Home.handleCancelEdit (Home.handleEditTask t h)))
    = Some None
  ∧ Home.form_initialData (Home.toggleForm (Home.handleTaskCreated (Home.handleEditTask t h)))
    = Some None
  ∧ Home.mutated (Home.handleTaskCreated (Home.handleEditTask t h)) = S (Home.mutated h).
Proof. done. Qed.

(** ** Toasts *)

(** X25. The five-second timer of a received notification removes it only
    if the payload did not bring an [id] of its own: a payload [id]
    replaces the generated one, and the timer, which filters on the
    generated id, then leaves the toast in place.  For [addNotification]
    with an id no other toast has, the timer (or a dismissal) gives back
    the list as it was. *)
Theorem notification_expiry (id : value) (n : task) (prev : list task) :
  get (spread2 {[ "id" := id ]} n) "id" = default id (n !! "id")
  ∧ Notifications.removeNotification id (Notifications.receive id n prev)
    = (if decide (default id (n !! "id") = id)
       then Notifications.removeNotification id prev
       else spread2 {[ "id" := id ]} n :: Notifications.removeNotification id prev)
  ∧ (∀ message type,
       Forall (λ m, get m "id" ≠ id) prev →
       Notifications.removeNotification id
         (Notifications.addNotification id message type prev) = prev).
Proof.
  assert (get (spread2 {[ "id" := id ]} n) "id" = default id (n !! "id")) as Hid.
  { unfold get, spread2. rewrite lookup_union, lookup_singleton_eq.
    by destruct (n !! "id"). }
  split; [done|]. split.
  - unfold Notifications.removeNotification, Notifications.receive. simpl.
    rewrite Hid. unfold strict_ne, strict_eq.
    destruct (decide (default id (n !! "id") = id)) as [Heq|Hne].
    + by rewrite bool_decide_eq_true_2.
    + by rewrite bool_decide_eq_false_2.
  - intros message type Hfresh.
    unfold Notifications.removeNotification, Notifications.addNotification.
    rewrite List.filter_app. simpl.
    assert (get ({[ "id" := id; "message" := message; "type" := type ]} : task) "id" = id)
      as -> by (unfold get; by rewrite lookup_insert_eq).
    unfold strict_ne at 2. rewrite strict_eq_refl. simpl. rewrite app_nil_r.
    induction Hfresh as [|m prev' Hm _ IH]; [done|]. simpl.
    apply strict_ne_true in Hm. by rewrite Hm, IH.
Qed.

Lemma notification_expiry_witness :
  Notifications.removeNotification (VStr "k3j9x")
    (Notifications.receive (VStr "k3j9x")
       {[ "id" := VStr "n1"; "message" := VStr "You were assigned a task" ]} [])
  = [ {[ "id" := VStr "n1"; "message" := VStr "You were assigned a task" ]} ]
  ∧ Notifications.removeNotification (VStr "k3j9x")
      (Notifications.addNotification (VStr "k3j9x") (VStr "Saved") (VStr "info") [])
    = [].
Proof.
  destruct (notification_expiry (VStr "k3j9x")
              {[ "id" := VStr "n1"; "message" := VStr "You were assigned a task" ]} [])
    as (_ & Hrecv & Hadd).
  split.
  - rewrite Hrecv. reflexivity.
  - apply Hadd. constructor.
Defined.

(** ** Signing in and out *)

Ltac run_async :=
  unfold final, fulfils, try_catch_finally, await, modify,
    UseAuth.throw_plain;
  unfold mbind, M_bind, mret, M_ret.

(** X26. [checkAuth] never rejects and always ends with the loading flag
    cleared and no navigation.  The session counts as authenticated exactly
    when the request was answered with an ok status and a body carrying a
    user; only then is the user stored and [initSocket] called, with that
    user's id.  In every other case the socket module is left as it was. *)
Theorem checkAuth_outcome (me : UseAuth.fetched) (a : UseAuth.auth) :
  let a' := final (UseAuth.checkAuth me) a in
  fulfils (UseAuth.checkAuth me) a = true
  ∧ UseAuth.isLoading a' = false
  ∧ UseAuth.pushed a' = UseAuth.pushed a
  ∧ (UseAuth.isAuthenticated a' = true
     ↔ ∃ u, me = inr (UseAuth.FetchResponse true (UseAuth.JsonBody (Some u))))
  ∧ (∀ u, me = inr (UseAuth.FetchResponse true (UseAuth.JsonBody (Some u))) →
       UseAuth.user a' = Some u
       ∧ UseAuth.sock a' = (Socket.initSocket (get u "id") (UseAuth.sock a)).2)
  ∧ (UseAuth.isAuthenticated a' = false → UseAuth.sock a' = UseAuth.sock a).
Proof.
  intros a'. subst a'. unfold UseAuth.checkAuth. run_async.
  destruct me as [e|[[] [| |[u|]]]]; cbn;
    (split; [done|]); (split; [done|]); (split; [done|]);
    (split; [split; [try done; by eexists | try done; by intros [? ?]]|]);
    (split; [intros ? [=]; by subst |]); try done.
Qed.

(** X27. [logout] never rejects.  When the request cannot be sent nothing
    changes: the user stays signed in locally and the socket stays open.
    Otherwise, whatever status the server answered, the socket is closed,
    the user is cleared and the router is sent to [/login]. *)
Theorem logout_outcome (out : UseAuth.fetched) (a : UseAuth.auth) :
  UseAuth.logout out a
  = (inr (),
     match out with
     | inl _ => a
     | inr _ => UseAuth.Auth None (UseAuth.isLoading a) false
                             (UseAuth.pushed a ++ ["/login"%string])
                             (Socket.closeSocket (UseAuth.sock a))
     end)
  ∧ (∀ r, out = inr r →
       Socket.getSocket (UseAuth.sock (final (UseAuth.logout out) a)) = None).
Proof.
  unfold UseAuth.logout. run_async. split.
  - destruct out as [e|r]; cbn; [by destruct a | done].
  - intros r ->. cbn. apply closeSocket_socket.
Qed.

(** X28. The login submit never rejects and ends with the loading flag
    cleared.  When the schema rejects the fields no request is sent and the
    error asks to check the input.  Otherwise one login request is sent: if
    it is rejected the error is the server's message or the default one; if
    it fulfils the error stays empty, and the router is sent to [/] only
    when the status is exactly 200. *)
Theorem login_onSubmit_outcome
    (loginSchema : task → Validation.parsed) (api : AuthPages.authAPI) (d : task)
    (pg : AuthPages.page) :
  let pg' := final (AuthPages.login_onSubmit loginSchema api d) pg in
  fulfils (AuthPages.login_onSubmit loginSchema api d) pg = true
  ∧ AuthPages.isLoading pg' = false
  ∧ match loginSchema d with
    | Validation.ParseOk _ =>
        AuthPages.requests pg'
        = AuthPages.requests pg ++ [AuthPages.Login (get d "email") (get d "password")]
        ∧ match AuthPages.login api (get d "email") (get d "password") with
          | inl err =>
              AuthPages.error pg'
              = or_else (err_message err) (VStr "Login failed. Please try again.")
              ∧ AuthPages.pushed pg' = AuthPages.pushed pg
          | inr r =>
              AuthPages.error pg' = VStr ""
              ∧ AuthPages.pushed pg'
                = if res_status r =? 200
                  then AuthPages.pushed pg ++ ["/"%string]
                  else AuthPages.pushed pg
          end
    | _ =>
        AuthPages.requests pg' = AuthPages.requests pg
        ∧ AuthPages.error pg' = VStr "Please check your input"
        ∧ AuthPages.pushed pg' = AuthPages.pushed pg
    end.
Proof.
  intros pg'. subst pg'. unfold AuthPages.login_onSubmit. run_async.
  destruct (loginSchema d) as [v|issues|]; cbn; try done.
  destruct (AuthPages.login api _ _) as [err|r]; cbn; [done|].
  by destruct (res_status r =? 200).
Qed.

(** X29. The register submit checks the two passwords before anything
    else: when they differ it reports "Passwords do not match" and neither
    validates nor sends.  When they agree it behaves like the login submit,
    with one register request and a navigation to [/] only on status 201. *)
Theorem register_onSubmit_outcome
    (registerSchema : task → Validation.parsed) (api : AuthPages.authAPI) (d : task)
    (pg : AuthPages.page) :
  let pg' := final (AuthPages.register_onSubmit registerSchema api d) pg in
  let req := AuthPages.Register (get d "email") (get d "name") (get d "password") in
  fulfils (AuthPages.register_onSubmit registerSchema api d) pg = true
  ∧ AuthPages.isLoading pg' = false
  ∧ (get d "password" ≠ get d "confirmPassword" →
     pg' = AuthPages.Page (VStr "Passwords do not match") false
                          (AuthPages.pushed pg) (AuthPages.requests pg))
  ∧ (get d "password" = get d "confirmPassword" →
     match registerSchema d with
     | Validation.ParseOk _ =>
         AuthPages.requests pg' = AuthPages.requests pg ++ [req]
         ∧ match AuthPages.register api (get d "email") (get d "name")
                                    (get d "password") with
           | inl err =>
               AuthPages.error pg'
               = or_else (err_message err)
                         (VStr "Registration failed. Please try again.")
               ∧ AuthPages.pushed pg' = AuthPages.pushed pg
           | inr r =>
               AuthPages.error pg' = VStr ""
               ∧ AuthPages.pushed pg'
                 = if res_status r =? 201
                   then AuthPages.pushed pg ++ ["/"%string]
                   else AuthPages.pushed pg
           end
     | _ =>
         AuthPages.requests pg' = AuthPages.requests pg
         ∧ AuthPages.error pg' = VStr "Please check your input"
         ∧ AuthPages.pushed pg' = AuthPages.pushed pg
     end).
Proof.
  intros pg' req. subst pg' req. unfold AuthPages.register_onSubmit. run_async.
  unfold strict_ne.
  destruct (strict_eq (get d "password") (get d "confirmPassword")) eqn:Hpw; cbn.
  - apply strict_eq_true in Hpw.
    destruct (registerSchema d) as [v|issues|]; cbn;
      try (repeat split; done).
    destruct (AuthPages.register api _ _ _) as [err|r]; cbn;
      [repeat split; done|].
    destruct (res_status r =? 201); repeat split; done.
  - apply strict_eq_false in Hpw. repeat split; done.
Qed.

(** ** The report of [validate] *)

Lemma collect_lookup (issues : list (list string * value)) (acc : gmap string value)
    (k : string) :
  foldl (λ errors err, <[ Validation.join_path err.1 := err.2 ]> errors) acc issues !! k
  = match last (List.filter (λ err, String.eqb (Validation.join_path err.1) k) issues) with
    | Some err => Some err.2
    | None => acc !! k
    end.
Proof.
  revert acc. induction issues as [|err issues IH]; intros acc; [done|].
  simpl. rewrite IH.
  destruct (String.eqb_spec (Validation.join_path err.1) k) as [Heq|Hne].
  - destruct (List.filter _ issues) as [|e l] eqn:Hf.
    + simpl. by rewrite Heq, lookup_insert_eq.
    + change (last (err :: e :: l)) with (last (e :: l)).
      destruct (last (e :: l)) eqn:Hl; [done|].
      by apply last_None in Hl.
  - destruct (last (List.filter _ issues)); [done|].
    by rewrite lookup_insert_ne.
Qed.

(** X30. [validate] never throws.  It succeeds exactly when the schema
    accepts the data, and then returns the validated data with no errors.
    On a [ZodError] it returns no data and one error per issue path: the
    key is the path joined by dots and the message is that of the last
    issue with that path.  On any other exception the only error is
    [general].  The task form's use of it sees the same success and data. *)
Theorem validate_report (p : Validation.parsed) :
  (Validation.success (Validation.validate p) = true
   ↔ ∃ v, p = Validation.ParseOk v)
  ∧ (∀ v, p = Validation.ParseOk v →
       Validation.data (Validation.validate p) = Some v
       ∧ Validation.errors (Validation.validate p) = ∅)
  ∧ (Validation.success (Validation.validate p) = false →
     Validation.data (Validation.validate p) = None)
  ∧ (∀ issues k, p = Validation.ZodError issues →
       Validation.errors (Validation.validate p) !! k
       = (λ err : list string * value, err.2)
           <$> last (List.filter
                       (λ err, String.eqb (Validation.join_path err.1) k) issues))
  ∧ (p = Validation.OtherError →
     Validation.errors (Validation.validate p)
     = {[ "general" := VStr "Validation failed" ]})
  ∧ (∀ (schema : task → Validation.parsed) (d : task), p = schema d →
       TaskForm.success (TaskForm.validate (λ x, Validation.parse_data (schema x)) d)
       = Validation.success (Validation.validate p)
       ∧ TaskForm.data (TaskForm.validate (λ x, Validation.parse_data (schema x)) d)
         = Validation.data (Validation.validate p)).
Proof.
  split; [|split; [|split; [|split; [|split]]]].
  - destruct p; simpl; split; try done; try (by intros [? ?]). by eexists.
  - by intros v ->.
  - by destruct p.
  - intros issues k ->. simpl. unfold Validation.collect. rewrite collect_lookup.
    destruct (last _); [done|]. by rewrite lookup_empty.
  - by intros ->.
  - intros schema d ->. unfold TaskForm.validate. by destruct (schema d).
Qed.

Lemma validate_report_witness :
  Validation.errors
    (Validation.validate
       (Validation.ZodError
          [ (["title"%string], VStr "Title is required");
            (["assignedToId"%string], VStr "Invalid user");
            (["title"%string], VStr "Title must be less than 100 characters") ]))
  !! "title"%string
  = Some (VStr "Title must be less than 100 characters").
Proof.
  destruct (validate_report
              (Validation.ZodError
                 [ (["title"%string], VStr "Title is required");
                   (["assignedToId"%string], VStr "Invalid user");
                   (["title"%string], VStr "Title must be less than 100 characters") ]))
    as (_ & _ & _ & Herr & _).
  exact (Herr _ "title"%string eq_refl).
Defined.
